(** * Box matching and scoring engine of [evaluate_tags.py]

    A shallow embedding of the three functions of [src/evaluate_tags.py]:
    [calculate_overlap], [count_correct_predictions] and the aggregation
    and scoring loops of [main].

    Numbers.  The coordinates of a box are JSON numbers.  They are modelled
    as exact rationals ([Q]); Python's [==], [<=], [>] on numbers compare
    values, which is [Qeq], [Qle], [Qlt] here.  Python's true division
    raises [ZeroDivisionError] on a zero divisor: [true_div] keeps that
    case, so that "never divides by zero" is a statement about the code.
    Rounding of binary floating point is outside the model.

    Exceptions.  A Python exception is the [Raise] case of [result].

    Further down: [main] on a ground truth directory and a prediction
    directory ([main_dirs]), and, from [src/app.py], the extraction of the
    JSON text from the answer of the model ([App]). *)

From Stdlib Require Import Ascii String QArith Qminmax Lqa Lia.
From stdpp Require Import base option list gmap strings.

(** ** Exceptions as an error monad *)

Inductive exn : Type :=
| ZeroDivisionError
| KeyError (key : string).

Inductive result (A : Type) : Type :=
| Ok (a : A)
| Raise (e : exn).
Arguments Ok {A} a.
Arguments Raise {A} e.

#[global] Instance result_ret : MRet result := fun A a => Ok a.
#[global] Instance result_bind : MBind result := fun A B f m =>
  match m with
  | Ok a => f a
  | Raise e => Raise e
  end.

(** ** Numbers *)

Definition Qlt_bool (a b : Q) : bool :=
  match (a ?= b)%Q with
  | Lt => true
  | _ => false
  end.

(** [a / b] of Python on numbers. *)
Definition true_div (a b : Q) : result Q :=
  if Qeq_bool b 0 then Raise ZeroDivisionError else Ok (a / b)%Q.

(** ** Boxes *)

Record Box : Type := mkBox {
  tag : string;
  x1 : Q;
  y1 : Q;
  x2 : Q;
  y2 : Q
}.

(** ** [calculate_overlap] *)

Definition calculate_overlap (box1 box2 : Box) : result Q :=
  let '(x1_start, y1_start, x1_end, y1_end) := (x1 box1, y1 box1, x2 box1, y2 box1) in
  let '(x2_start, y2_start, x2_end, y2_end) := (x1 box2, y1 box2, x2 box2, y2 box2) in
  let overlap_left := Qmax x1_start x2_start in
  let overlap_top := Qmax y1_start y2_start in
  let overlap_right := Qmin x1_end x2_end in
  let overlap_bottom := Qmin y1_end y2_end in
  if Qle_bool overlap_right overlap_left || Qle_bool overlap_bottom overlap_top
  then Ok 0%Q
  else
    let overlap_area := ((overlap_right - overlap_left) * (overlap_bottom - overlap_top))%Q in
    let area1 := ((x1_end - x1_start) * (y1_end - y1_start))%Q in
    let area2 := ((x2_end - x2_start) * (y2_end - y2_start))%Q in
    let total_area := (area1 + area2 - overlap_area)%Q in
    if Qlt_bool 0 total_area
    then true_div overlap_area total_area
    else Ok 0%Q.

(** ** Tags: [str.lower] on ASCII strings *)

Definition lower_ascii (c : ascii) : ascii :=
  let n := nat_of_ascii c in
  if (65 <=? n)%nat && (n <=? 90)%nat then ascii_of_nat (n + 32) else c.

Fixpoint lower (s : string) : string :=
  match s with
  | EmptyString => EmptyString
  | String c rest => String (lower_ascii c) (lower rest)
  end.

(** [box['tag'].lower() == element_type.lower()] *)
Definition tag_matches (element_type : string) (box : Box) : bool :=
  String.eqb (lower (tag box)) (lower element_type).

(** ** [count_correct_predictions] *)

(** The two selection loops: [for box in boxes: if ...: out.append(box)]. *)
Fixpoint select_boxes (element_type : string) (boxes out : list Box) : list Box :=
  match boxes with
  | [] => out
  | box :: rest =>
      if tag_matches element_type box
      then select_boxes element_type rest (out ++ [box])
      else select_boxes element_type rest out
  end.

(** The inner loop, [for i, gt_box in enumerate(gt_boxes)], entered at
    index [i] with the boxes from [i] on.  [Some i] is the [break] at
    index [i]; [None] is the loop running to its end. *)
Fixpoint scan_ground_truth (pred_box : Box) (used_gt_boxes : list nat)
    (i : nat) (gt_boxes : list Box) : result (option nat) :=
  match gt_boxes with
  | [] => Ok None
  | gt_box :: rest =>
      if bool_decide (i ∈ used_gt_boxes)
      then scan_ground_truth pred_box used_gt_boxes (S i) rest
      else
        overlap ← calculate_overlap gt_box pred_box;
        if Qle_bool (1 # 2) overlap
        then Ok (Some i)
        else scan_ground_truth pred_box used_gt_boxes (S i) rest
  end.

(** The state of the outer loop. *)
Record MatchState : Type := mkMatchState {
  correct_count : nat;
  used_gt_boxes : list nat
}.

(** One iteration of [for pred_box in pred_boxes]. *)
Definition match_step (gt_boxes : list Box) (st : MatchState) (pred_box : Box)
    : result MatchState :=
  hit ← scan_ground_truth pred_box (used_gt_boxes st) 0 gt_boxes;
  match hit with
  | Some i => Ok (mkMatchState (correct_count st + 1) (used_gt_boxes st ++ [i]))
  | None => Ok st
  end.

Fixpoint match_loop (gt_boxes pred_boxes : list Box) (st : MatchState)
    : result MatchState :=
  match pred_boxes with
  | [] => Ok st
  | pred_box :: rest =>
      st' ← match_step gt_boxes st pred_box;
      match_loop gt_boxes rest st'
  end.

Definition count_correct_predictions (ground_truth_boxes predicted_boxes : list Box)
    (element_type : string) : result (nat * nat * nat) :=
  let gt_boxes := select_boxes element_type ground_truth_boxes [] in
  let pred_boxes := select_boxes element_type predicted_boxes [] in
  st ← match_loop gt_boxes pred_boxes (mkMatchState 0 []);
  Ok (length gt_boxes, length pred_boxes, correct_count st).

(** The ground truth index each predicted box consumed, in the order of
    the predicted boxes: a record of the [break]s of [match_loop], which
    the code itself only keeps as [used_gt_boxes]. *)
Fixpoint match_trace (gt_boxes pred_boxes : list Box) (st : MatchState)
    : result (list (option nat)) :=
  match pred_boxes with
  | [] => Ok []
  | pred_box :: rest =>
      hit ← scan_ground_truth pred_box (used_gt_boxes st) 0 gt_boxes;
      st' ← match_step gt_boxes st pred_box;
      hits ← match_trace gt_boxes rest st';
      Ok (hit :: hits)
  end.

(** ** [main]: totals over the files, then the scores *)

Definition element_types : list string := ["button"; "input"; "radio"; "dropdown"].

Record Totals : Type := mkTotals {
  ground_truth_total : nat;
  predicted_total : nat;
  correct_total : nat
}.

(** [results = {}; for element_type in element_types: results[element_type] = {...}] *)
Definition init_results : gmap string Totals :=
  foldl (fun results element_type => <[element_type := mkTotals 0 0 0]> results)
        ∅ element_types.

(** [results[key]] *)
Definition getitem (results : gmap string Totals) (key : string) : result Totals :=
  match results !! key with
  | Some t => Ok t
  | None => Raise (KeyError key)
  end.

(** [results[key][field] += n], with [upd] the change of the field. *)
Definition add_to (upd : Totals -> Totals) (key : string)
    (results : gmap string Totals) : result (gmap string Totals) :=
  t ← getitem results key;
  Ok (<[key := upd t]> results).

(** One ground truth file: its boxes, and the boxes of the prediction file
    of the same name, [None] when [os.path.exists] is false. *)
Record FilePair : Type := mkFilePair {
  ground_truth_data : list Box;
  prediction_data : option (list Box)
}.

(** [for element_type in element_types: ...] on one pair of files. *)
Fixpoint count_file (ground_truth prediction : list Box) (types : list string)
    (results : gmap string Totals) : result (gmap string Totals) :=
  match types with
  | [] => Ok results
  | element_type :: rest =>
      '(gt_count, pred_count, correct) ←
        count_correct_predictions ground_truth prediction element_type;
      results ← add_to (fun t => mkTotals (ground_truth_total t + gt_count)
                                           (predicted_total t) (correct_total t))
                        element_type results;
      results ← add_to (fun t => mkTotals (ground_truth_total t)
                                           (predicted_total t + pred_count) (correct_total t))
                        element_type results;
      results ← add_to (fun t => mkTotals (ground_truth_total t)
                                           (predicted_total t) (correct_total t + correct))
                        element_type results;
      count_file ground_truth prediction rest results
  end.

(** [for filename in json_files: ...] *)
Fixpoint process_files (files : list FilePair) (results : gmap string Totals)
    : result (gmap string Totals) :=
  match files with
  | [] => Ok results
  | file :: rest =>
      match prediction_data file with
      | None => process_files rest results
      | Some prediction =>
          results ← count_file (ground_truth_data file) prediction element_types results;
          process_files rest results
      end
  end.

Definition Q_of_nat (n : nat) : Q := inject_Z (Z.of_nat n).

Record Scores : Type := mkScores {
  precision : Q;
  recall : Q;
  f1_score : Q
}.

(** The scores of one element type, from its totals. *)
Definition calculate_scores (gt_total pred_total correct : nat) : result Scores :=
  precision ← (if (0 <? pred_total)%nat
               then true_div (Q_of_nat correct) (Q_of_nat pred_total)
               else Ok 0%Q);
  recall ← (if (0 <? gt_total)%nat
            then true_div (Q_of_nat correct) (Q_of_nat gt_total)
            else Ok 0%Q);
  f1_score ← (if Qlt_bool 0 (precision + recall)
              then true_div (2 * precision * recall) (precision + recall)
              else Ok 0%Q);
  Ok (mkScores precision recall f1_score).

(** What [main] prints for one element type. *)
Record ReportEntry : Type := mkReportEntry {
  entry_type : string;
  entry_totals : Totals;
  entry_scores : Scores
}.

(** The printing loop, [for element_type in element_types: ...]. *)
Fixpoint report (types : list string) (results : gmap string Totals)
    : result (list ReportEntry) :=
  match types with
  | [] => Ok []
  | element_type :: rest =>
      gt ← getitem results element_type;
      pred ← getitem results element_type;
      correct ← getitem results element_type;
      scores ← calculate_scores (ground_truth_total gt) (predicted_total pred)
                                 (correct_total correct);
      entries ← report rest results;
      Ok (mkReportEntry element_type
            (mkTotals (ground_truth_total gt) (predicted_total pred) (correct_total correct))
            scores :: entries)
  end.

Definition main (files : list FilePair) : result (list ReportEntry) :=
  results ← process_files files init_results;
  report element_types results.

(** ** The specification's description of the same computations

    These definitions follow the words of the specification, not the
    code; the theorems below compare the two. *)

Module Spec.

(** "tag equals category under case-insensitive comparison" *)
Definition same_category (category : string) (box : Box) : Prop :=
  lower (tag box) = lower category.

#[global] Instance same_category_dec category box :
  Decision (same_category category box).
Proof. unfold same_category. apply _. Defined.

Definition filter_category (category : string) (boxes : list Box) : list Box :=
  filter (same_category category) boxes.

(** Intersection over union, without exceptions. *)
Definition overlap (boxA boxB : Box) : Q :=
  let left := Qmax (x1 boxA) (x1 boxB) in
  let top := Qmax (y1 boxA) (y1 boxB) in
  let right := Qmin (x2 boxA) (x2 boxB) in
  let bottom := Qmin (y2 boxA) (y2 boxB) in
  if Qle_bool right left || Qle_bool bottom top then 0%Q
  else
    let intersection := ((right - left) * (bottom - top))%Q in
    let union := ((x2 boxA - x1 boxA) * (y2 boxA - y1 boxA)
                  + (x2 boxB - x1 boxB) * (y2 boxB - y1 boxB) - intersection)%Q in
    if Qeq_bool union 0 then 0%Q else (intersection / union)%Q.

(** A candidate qualifies for a predicted box when it is not consumed
    and its overlap with the predicted box is at least 0.5. *)
Definition qualifies (gts : list Box) (consumed : gset nat) (pred : Box)
    (i : nat) : bool :=
  bool_decide (i ∉ consumed) &&
  match gts !! i with
  | Some gt => Qle_bool (1 # 2) (overlap pred gt)
  | None => false
  end.

(** The first qualifying candidate, in iteration order. *)
Definition first_fit (gts : list Box) (consumed : gset nat) (pred : Box)
    : option nat :=
  List.find (qualifies gts consumed pred) (seq 0 (length gts)).

(** Steps 1 to 6 of the greedy matching. *)
Fixpoint greedy (gts preds : list Box) (consumed : gset nat) (correctCount : nat)
    : nat :=
  match preds with
  | [] => correctCount
  | pred :: rest =>
      match first_fit gts consumed pred with
      | Some i => greedy gts rest ({[i]} ∪ consumed) (correctCount + 1)
      | None => greedy gts rest consumed correctCount
      end
  end.

Definition match_category (groundTruthBoxes predictedBoxes : list Box)
    (category : string) : nat * nat * nat :=
  let gts := filter_category category groundTruthBoxes in
  let preds := filter_category category predictedBoxes in
  (length gts, length preds, greedy gts preds ∅ 0).

(** The three derived values, from the final totals. *)
Definition precision_of (t : Totals) : Q :=
  if (0 <? predicted_total t)%nat
  then (Q_of_nat (correct_total t) / Q_of_nat (predicted_total t))%Q else 0%Q.

Definition recall_of (t : Totals) : Q :=
  if (0 <? ground_truth_total t)%nat
  then (Q_of_nat (correct_total t) / Q_of_nat (ground_truth_total t))%Q else 0%Q.

Definition f1_of (t : Totals) : Q :=
  let p := precision_of t in
  let r := recall_of t in
  if Qlt_bool 0 (p + r) then (2 * p * r / (p + r))%Q else 0%Q.

Definition scores_of (t : Totals) : Scores :=
  mkScores (precision_of t) (recall_of t) (f1_of t).

(** The counts of one file for one category; a ground truth file with
    no prediction file contributes nothing. *)
Definition file_counts (category : string) (file : FilePair) : nat * nat * nat :=
  match prediction_data file with
  | Some prediction => match_category (ground_truth_data file) prediction category
  | None => (0, 0, 0)
  end.

(** Totals as sums over the files. *)
Definition sum_counts (category : string) (files : list FilePair) : Totals :=
  mkTotals (sum_list_with (fun f => (file_counts category f).1.1) files)
           (sum_list_with (fun f => (file_counts category f).1.2) files)
           (sum_list_with (fun f => (file_counts category f).2) files).

(** The aggregate metrics, per category in the order of the report. *)
Definition aggregate (files : list FilePair) : list ReportEntry :=
  map (fun category =>
         let t := sum_counts category files in
         mkReportEntry category t (scores_of t))
      element_types.

(** A category absent from the ground truth and from the predictions
    of every file. *)
Definition absent (category : string) (files : list FilePair) : bool :=
  forallb (fun file =>
             forallb (fun box => negb (bool_decide (same_category category box)))
                     (ground_truth_data file)
             && match prediction_data file with
                | Some prediction =>
                    forallb (fun box => negb (bool_decide (same_category category box)))
                            prediction
                | None => true
                end)
          files.

End Spec.

(** Adding the counts of one file to the totals of a category: the three
    [+=] of [main] taken together. *)
Definition add_counts (counts : nat * nat * nat) (t : Totals) : Totals :=
  mkTotals (ground_truth_total t + counts.1.1)
           (predicted_total t + counts.1.2)
           (correct_total t + counts.2).

(** Running totals plus a sum of counts. *)
Definition add_totals (sum t : Totals) : Totals :=
  mkTotals (ground_truth_total t + ground_truth_total sum)
           (predicted_total t + predicted_total sum)
           (correct_total t + correct_total sum).

(** ** Names for the intermediate values of [calculate_overlap] *)

Definition overlap_left (a b : Box) : Q := Qmax (x1 a) (x1 b).
Definition overlap_top (a b : Box) : Q := Qmax (y1 a) (y1 b).
Definition overlap_right (a b : Box) : Q := Qmin (x2 a) (x2 b).
Definition overlap_bottom (a b : Box) : Q := Qmin (y2 a) (y2 b).
Definition overlap_area (a b : Box) : Q :=
  ((overlap_right a b - overlap_left a b) * (overlap_bottom a b - overlap_top a b))%Q.
Definition area (a : Box) : Q := ((x2 a - x1 a) * (y2 a - y1 a))%Q.
Definition total_area (a b : Box) : Q := (area a + area b - overlap_area a b)%Q.

(** The guard of [calculate_overlap], as a proposition. *)
Definition empty_intersection (a b : Box) : Prop :=
  (overlap_right a b <= overlap_left a b \/ overlap_bottom a b <= overlap_top a b)%Q.

(** Equality of results up to the value of the number. *)
Definition result_Qeq (r1 r2 : result Q) : Prop :=
  match r1, r2 with
  | Ok v1, Ok v2 => (v1 == v2)%Q
  | Raise e1, Raise e2 => e1 = e2
  | _, _ => False
  end.

(** A box with integer coordinates, as in the files of the repository. *)
Definition bx (t : string) (a b c d : Z) : Box :=
  mkBox t (inject_Z a) (inject_Z b) (inject_Z c) (inject_Z d).

(** ** Rectangles: notions used to state how the overlap behaves *)






(** ** Notions used to state properties of the totals *)

(** A box whose tag, in lower case, is one of the element types. *)
Definition recognized (box : Box) : Prop := lower (tag box) ∈ element_types.

#[global] Instance recognized_dec (box : Box) : Decision (recognized box).
Proof. unfold recognized. apply _. Defined.

(** The ground truth boxes, and the predicted boxes, of the files that
    have a prediction file. *)
Fixpoint processed_ground_truth (files : list FilePair) : list Box :=
  match files with
  | [] => []
  | file :: rest =>
      match prediction_data file with
      | Some _ => ground_truth_data file ++ processed_ground_truth rest
      | None => processed_ground_truth rest
      end
  end.

Fixpoint processed_predictions (files : list FilePair) : list Box :=
  match files with
  | [] => []
  | file :: rest =>
      match prediction_data file with
      | Some prediction => prediction ++ processed_predictions rest
      | None => processed_predictions rest
      end
  end.

(** ** [main] on two directories

    The ground truth directory is the listing of [os.listdir], each name
    with the boxes [json.load] reads from that file; the prediction
    directory maps the names of its files to their boxes, so that
    [os.path.exists] is a successful lookup.  Of what [main] prints, the
    model keeps the number of files found, the names in the warnings and
    the report. *)

(** [s.endswith(suffix)] *)
Definition endswith (s suffix : string) : bool :=
  (String.length suffix <=? String.length s)%nat
  && String.eqb (substring (String.length s - String.length suffix)
                           (String.length suffix) s)
                suffix.

(** [for filename in gt_files: if filename.endswith('.json'): json_files.append(filename)] *)
Fixpoint select_json_files (gt_files json_files : list (string * list Box))
    : list (string * list Box) :=
  match gt_files with
  | [] => json_files
  | file :: rest =>
      if endswith file.1 ".json"
      then select_json_files rest (json_files ++ [file])
      else select_json_files rest json_files
  end.

(** [for filename in json_files: ...], with the names of the warnings. *)
Fixpoint evaluate_files (json_files : list (string * list Box))
    (pred_dir : gmap string (list Box))
    (results : gmap string Totals) (warnings : list string)
    : result (gmap string Totals * list string) :=
  match json_files with
  | [] => Ok (results, warnings)
  | (filename, ground_truth_data) :: rest =>
      match pred_dir !! filename with
      | None => evaluate_files rest pred_dir results (warnings ++ [filename])
      | Some prediction_data =>
          results ← count_file ground_truth_data prediction_data element_types results;
          evaluate_files rest pred_dir results warnings
      end
  end.

Record Run : Type := mkRun {
  found : nat;
  warnings : list string;
  report_entries : list ReportEntry
}.

Definition main_dirs (gt_dir : list (string * list Box))
    (pred_dir : gmap string (list Box)) : result Run :=
  let json_files := select_json_files gt_dir [] in
  '(results, warnings) ← evaluate_files json_files pred_dir init_results [];
  entries ← report element_types results;
  Ok (mkRun (length json_files) warnings entries).

(** The pairs of files that the loop of [main_dirs] sees. *)
Definition pair_files (json_files : list (string * list Box))
    (pred_dir : gmap string (list Box)) : list FilePair :=
  map (fun file => mkFilePair file.2 (pred_dir !! file.1)) json_files.

(** The names of the ground truth files ending in [.json]. *)
Definition json_names (gt_dir : list (string * list Box)) : list string :=
  filter (fun name => endswith name ".json" = true) (map fst gt_dir).

(** ** [app.py]: from the text of the model to the boxes

    The part of [predict] after the call of the API.  Strings are ASCII
    texts; [J] stands for the values of [json.loads]. *)

Module App.

(** [sub in s] *)
Fixpoint contains (sub s : string) : bool :=
  String.prefix sub s ||
  match s with
  | EmptyString => false
  | String _ rest => contains sub rest
  end.

(** [s.split(sep)] for a separator that is not empty, read from left to
    right: [piece] is the piece under construction, [skip] the number of
    characters of a separator just found that are still to pass. *)
Fixpoint split_from (sep s : string) (skip : nat) (piece : string) : list string :=
  match s with
  | EmptyString => [piece]
  | String c rest =>
      match skip with
      | S skip' => split_from sep rest skip' piece
      | O =>
          if String.prefix sep s
          then piece :: split_from sep rest (String.length sep - 1) EmptyString
          else split_from sep rest 0 (piece +:+ String c EmptyString)
      end
  end.

Definition split (sep s : string) : list string := split_from sep s 0 EmptyString.

(** ASCII white space, as [str.isspace]. *)
Definition is_space (c : ascii) : bool :=
  let n := nat_of_ascii c in
  ((9 <=? n)%nat && (n <=? 13)%nat) || ((28 <=? n)%nat && (n <=? 32)%nat).

Fixpoint lstrip (s : string) : string :=
  match s with
  | EmptyString => EmptyString
  | String c rest => if is_space c then lstrip rest else s
  end.

Fixpoint rstrip (s : string) : string :=
  match s with
  | EmptyString => EmptyString
  | String c rest =>
      match rstrip rest with
      | EmptyString => if is_space c then EmptyString else String c EmptyString
      | kept => String c kept
      end
  end.

(** [s.strip()] *)
Definition strip (s : string) : string := rstrip (lstrip s).

(** [l[i]]; [None] is [IndexError]. *)
Definition item (l : list string) (i : nat) : option string := l !! i.

Definition fence_json : string := "```json".
Definition fence : string := "```".

(** The text handed to [json.loads], before [strip]; [None] is an
    [IndexError] of one of the indexings. *)
Definition extract_json_text (ai_response : string) : option string :=
  if contains fence_json ai_response
  then chunk ← item (split fence_json ai_response) 1;
       item (split fence chunk) 0
  else if contains fence ai_response
  then item (split fence ai_response) 1
  else Some ai_response.

(** What [predict] returns: [{"boxes": boxes}] or
    [{"boxes": [], "error": message}]. *)
Inductive response (J : Type) : Type :=
| Boxes (boxes : J)
| BoxesError (message : string).
Arguments Boxes {J} boxes.
Arguments BoxesError {J} message.

Section Predict.
Variable J : Type.
(** [json.loads], [None] when it raises. *)
Variable json_loads : string -> option J.
(** The empty list [[]]. *)
Variable no_boxes : J.

(** The body of [if ai_response: ...]; [None] is an exception that
    leaves it. *)
Definition parse_boxes (ai_response : option string) : option J :=
  match ai_response with
  | None => Some no_boxes
  | Some EmptyString => Some no_boxes
  | Some text =>
      json_text ← extract_json_text text;
      match json_loads (strip json_text) with
      | Some boxes => Some boxes
      | None => Some no_boxes
      end
  end.

(** [api] is the outcome of the call of the API: [inl message] when it
    raised, [inr content] with the content of the first choice. *)
Definition predict (api : string + option string) : response J :=
  match api with
  | inl message => BoxesError message
  | inr ai_response =>
      match parse_boxes ai_response with
      | Some boxes => Boxes boxes
      | None => BoxesError "list index out of range"
      end
  end.

End Predict.

(** No backquote in the string. *)
Fixpoint no_backquote (s : string) : bool :=
  match s with
  | EmptyString => true
  | String c rest => negb (Ascii.eqb c "`") && no_backquote rest
  end.

End App.

(** * Properties of [calculate_overlap] *)

Section Geometry.
Local Open Scope Q_scope.

Lemma Qlt_bool_iff (a b : Q) : Qlt_bool a b = true <-> a < b.
Proof.
  unfold Qlt_bool. rewrite Qlt_alt.
  destruct (a ?= b); intuition congruence.
Qed.


Lemma Qle_bool_false (a b : Q) : Qle_bool a b = false <-> b < a.
Proof.
  rewrite <- not_true_iff_false, Qle_bool_iff. split; intros H.
  - apply Qnot_le_lt, H.
  - apply Qlt_not_le, H.
Qed.

Lemma true_div_ok (a b : Q) : ~ b == 0 -> true_div a b = Ok (a / b).
Proof.
  intros H. unfold true_div.
  destruct (Qeq_bool b 0) eqn:E; [|reflexivity].
  apply Qeq_bool_iff in E. contradiction.
Qed.

Lemma guard_true (a b : Box) :
  Qle_bool (overlap_right a b) (overlap_left a b)
  || Qle_bool (overlap_bottom a b) (overlap_top a b) = true
  <-> empty_intersection a b.
Proof.
  unfold empty_intersection.
  rewrite orb_true_iff, !Qle_bool_iff. reflexivity.
Qed.

Lemma guard_false (a b : Box) :
  Qle_bool (overlap_right a b) (overlap_left a b)
  || Qle_bool (overlap_bottom a b) (overlap_top a b) = false
  <-> overlap_left a b < overlap_right a b /\ overlap_top a b < overlap_bottom a b.
Proof.
  rewrite orb_false_iff, !Qle_bool_false. reflexivity.
Qed.

(** A non-empty intersection lies inside both boxes, so its area is
    positive and at most the area of each. *)
Lemma inside_both (a b : Box) :
  overlap_left a b < overlap_right a b ->
  overlap_top a b < overlap_bottom a b ->
  0 < overlap_area a b /\ overlap_area a b <= area a /\ overlap_area a b <= area b.
Proof.
  unfold overlap_area, area, overlap_left, overlap_right, overlap_top, overlap_bottom.
  intros Hx Hy.
  pose proof (Q.le_max_l (x1 a) (x1 b)). pose proof (Q.le_max_r (x1 a) (x1 b)).
  pose proof (Q.le_max_l (y1 a) (y1 b)). pose proof (Q.le_max_r (y1 a) (y1 b)).
  pose proof (Q.le_min_l (x2 a) (x2 b)). pose proof (Q.le_min_r (x2 a) (x2 b)).
  pose proof (Q.le_min_l (y2 a) (y2 b)). pose proof (Q.le_min_r (y2 a) (y2 b)).
  set (l := Qmax (x1 a) (x1 b)) in *. set (t := Qmax (y1 a) (y1 b)) in *.
  set (r := Qmin (x2 a) (x2 b)) in *. set (d := Qmin (y2 a) (y2 b)) in *.
  repeat split; nra.
Qed.

Lemma total_area_pos (a b : Box) :
  overlap_left a b < overlap_right a b ->
  overlap_top a b < overlap_bottom a b ->
  0 < total_area a b /\ overlap_area a b <= total_area a b.
Proof.
  intros Hx Hy. destruct (inside_both a b Hx Hy) as (Hi & Ha & Hb).
  unfold total_area. split; lra.
Qed.

(** The two paths of [calculate_overlap]. *)
Lemma calculate_overlap_empty (a b : Box) :
  empty_intersection a b -> calculate_overlap a b = Ok 0.
Proof.
  intros H. apply guard_true in H. unfold calculate_overlap.
  fold (overlap_left a b) (overlap_right a b) (overlap_top a b) (overlap_bottom a b).
  rewrite H. reflexivity.
Qed.

Lemma calculate_overlap_nonempty (a b : Box) :
  overlap_left a b < overlap_right a b ->
  overlap_top a b < overlap_bottom a b ->
  calculate_overlap a b = Ok (overlap_area a b / total_area a b).
Proof.
  intros Hx Hy. destruct (total_area_pos a b Hx Hy) as [Hpos _].
  unfold calculate_overlap.
  fold (overlap_left a b) (overlap_right a b) (overlap_top a b) (overlap_bottom a b).
  rewrite (proj2 (guard_false a b) (conj Hx Hy)).
  fold (overlap_area a b) (area a) (area b). fold (total_area a b).
  rewrite (proj2 (Qlt_bool_iff _ _) Hpos).
  apply true_div_ok. lra.
Qed.

Lemma intersection_cases (a b : Box) :
  empty_intersection a b \/
  (overlap_left a b < overlap_right a b /\ overlap_top a b < overlap_bottom a b).
Proof.
  destruct (Qle_bool (overlap_right a b) (overlap_left a b)
            || Qle_bool (overlap_bottom a b) (overlap_top a b)) eqn:E.
  - left. apply guard_true, E.
  - right. apply guard_false, E.
Qed.

Lemma overlap_area_comm (a b : Box) : overlap_area a b == overlap_area b a.
Proof.
  unfold overlap_area, overlap_left, overlap_right, overlap_top, overlap_bottom.
  rewrite (Q.max_comm (x1 a)), (Q.max_comm (y1 a)),
          (Q.min_comm (x2 a)), (Q.min_comm (y2 a)).
  reflexivity.
Qed.

Lemma total_area_comm (a b : Box) : total_area a b == total_area b a.
Proof. unfold total_area. rewrite (overlap_area_comm a b). ring. Qed.

Lemma empty_intersection_comm (a b : Box) :
  empty_intersection a b -> empty_intersection b a.
Proof.
  unfold empty_intersection, overlap_left, overlap_right, overlap_top, overlap_bottom.
  rewrite (Q.max_comm (x1 a)), (Q.max_comm (y1 a)),
          (Q.min_comm (x2 a)), (Q.min_comm (y2 a)).
  trivial.
Qed.




Lemma calculate_overlap_comm (a b : Box) :
  result_Qeq (calculate_overlap a b) (calculate_overlap b a).
Proof.
  destruct (intersection_cases a b) as [He | [Hx Hy]].
  - rewrite (calculate_overlap_empty a b He).
    rewrite (calculate_overlap_empty b a (empty_intersection_comm a b He)).
    simpl. reflexivity.
  - destruct (intersection_cases b a) as [He | [Hx' Hy']].
    + apply empty_intersection_comm in He. destruct He as [He | He]; lra.
    + rewrite (calculate_overlap_nonempty a b Hx Hy).
      rewrite (calculate_overlap_nonempty b a Hx' Hy').
      simpl. rewrite (overlap_area_comm a b), (total_area_comm a b). reflexivity.
Qed.







(** [calculate_overlap] computes the intersection over union of the
    specification. *)
Lemma calculate_overlap_spec (a b : Box) :
  calculate_overlap a b = Ok (Spec.overlap a b).
Proof.
  destruct (intersection_cases a b) as [He | [Hx Hy]].
  - rewrite (calculate_overlap_empty a b He). unfold Spec.overlap.
    fold (overlap_left a b) (overlap_right a b) (overlap_top a b) (overlap_bottom a b).
    rewrite (proj2 (guard_true a b) He). reflexivity.
  - rewrite (calculate_overlap_nonempty a b Hx Hy). unfold Spec.overlap.
    fold (overlap_left a b) (overlap_right a b) (overlap_top a b) (overlap_bottom a b).
    rewrite (proj2 (guard_false a b) (conj Hx Hy)).
    fold (overlap_area a b) (area a) (area b). fold (total_area a b).
    destruct (total_area_pos a b Hx Hy) as [Hpos _].
    destruct (Qeq_bool (total_area a b) 0) eqn:E; [| reflexivity].
    apply Qeq_bool_iff in E. lra.
Qed.

Lemma overlap_comm (a b : Box) : Spec.overlap a b == Spec.overlap b a.
Proof.
  pose proof (calculate_overlap_comm a b) as H.
  rewrite !calculate_overlap_spec in H. exact H.
Qed.

Lemma Qle_bool_proper (c v w : Q) : v == w -> Qle_bool c v = Qle_bool c w.
Proof.
  intros H. apply eq_true_iff_eq. rewrite !Qle_bool_iff, H. reflexivity.
Qed.

End Geometry.

(** * Properties of [count_correct_predictions] *)

Section Matcher.

Lemma tag_matches_same_category (category : string) (box : Box) :
  tag_matches category box = true <-> Spec.same_category category box.
Proof. unfold tag_matches, Spec.same_category. apply String.eqb_eq. Qed.

(** The selection loops keep the boxes of the category, in order. *)
Lemma select_boxes_filter (category : string) (boxes out : list Box) :
  select_boxes category boxes out = out ++ Spec.filter_category category boxes.
Proof.
  revert out. induction boxes as [| box rest IH]; intros out; simpl.
  - unfold Spec.filter_category. rewrite filter_nil, app_nil_r. reflexivity.
  - unfold Spec.filter_category in *. rewrite filter_cons.
    destruct (tag_matches category box) eqn:E.
    + apply tag_matches_same_category in E.
      rewrite decide_True by assumption.
      rewrite IH, <- app_assoc. reflexivity.
    + rewrite decide_False; [apply IH |].
      intros H. apply tag_matches_same_category in H. congruence.
Qed.

(** The inner loop finds the first candidate that qualifies. *)
Lemma scan_ground_truth_find (pred_box : Box) (used : list nat)
    (before gt_boxes : list Box) :
  scan_ground_truth pred_box used (length before) gt_boxes
  = Ok (List.find (Spec.qualifies (before ++ gt_boxes) (list_to_set used) pred_box)
                  (seq (length before) (length gt_boxes))).
Proof.
  revert before. induction gt_boxes as [| gt_box rest IH]; intros before; simpl.
  - reflexivity.
  - specialize (IH (before ++ [gt_box])).
    rewrite length_app, Nat.add_1_r, <- app_assoc in IH. simpl in IH.
    unfold Spec.qualifies at 1.
    rewrite list_lookup_middle by reflexivity.
    destruct (decide (length before ∈ used)) as [Hin | Hout].
    + rewrite (bool_decide_eq_true_2 _ Hin).
      rewrite bool_decide_eq_false_2; [exact IH |].
      intros Hn. apply Hn, elem_of_list_to_set, Hin.
    + rewrite (bool_decide_eq_false_2 _ Hout).
      rewrite bool_decide_eq_true_2
        by (intros Hn; apply Hout; apply elem_of_list_to_set in Hn; exact Hn).
      rewrite calculate_overlap_spec. simpl.
      rewrite (Qle_bool_proper _ _ _ (overlap_comm gt_box pred_box)).
      destruct (Qle_bool (1 # 2) (Spec.overlap pred_box gt_box)); [reflexivity | exact IH].
Qed.

Lemma scan_ground_truth_first_fit (pred_box : Box) (used : list nat)
    (gt_boxes : list Box) :
  scan_ground_truth pred_box used 0 gt_boxes
  = Ok (Spec.first_fit gt_boxes (list_to_set used) pred_box).
Proof. exact (scan_ground_truth_find pred_box used [] gt_boxes). Qed.

(** First fit: the index found qualifies and no smaller index does. *)
Lemma find_seq_least (f : nat -> bool) (n a i : nat) :
  List.find f (seq a n) = Some i ->
  f i = true /\ forall j, a <= j < i -> f j = false.
Proof.
  revert a. induction n as [| n IH]; intros a; simpl; [discriminate |].
  destruct (f a) eqn:E.
  - intros [= <-]. split; [exact E | lia].
  - intros H. destruct (IH (S a) H) as [Hi Hleast]. split; [exact Hi |].
    intros j Hj. destruct (decide (j = a)) as [-> | Hne]; [exact E |].
    apply Hleast. lia.
Qed.

Lemma first_fit_least (gts : list Box) (consumed : gset nat) (pred : Box) (i : nat) :
  Spec.first_fit gts consumed pred = Some i ->
  Spec.qualifies gts consumed pred i = true /\
  forall j, j < i -> Spec.qualifies gts consumed pred j = false.
Proof.
  unfold Spec.first_fit. intros H. apply find_seq_least in H as [Hi Hleast].
  split; [exact Hi |]. intros j Hj. apply Hleast. lia.
Qed.

(** What a hit says about its index. *)
Lemma first_fit_Some (gts : list Box) (consumed : gset nat) (pred : Box) (i : nat) :
  Spec.first_fit gts consumed pred = Some i ->
  i < length gts /\ i ∉ consumed.
Proof.
  unfold Spec.first_fit. intros H. apply find_some in H as [Hin Hq].
  apply in_seq in Hin. split; [lia |].
  unfold Spec.qualifies in Hq. apply andb_true_iff in Hq as [Hq _].
  apply bool_decide_eq_true in Hq. exact Hq.
Qed.

Lemma match_step_spec (gts : list Box) (st : MatchState) (pred_box : Box) :
  match_step gts st pred_box
  = Ok (match Spec.first_fit gts (list_to_set (used_gt_boxes st)) pred_box with
        | Some i => mkMatchState (correct_count st + 1) (used_gt_boxes st ++ [i])
        | None => st
        end).
Proof.
  unfold match_step. rewrite scan_ground_truth_first_fit. simpl.
  destruct (Spec.first_fit _ _ _); reflexivity.
Qed.

(** The outer loop counts what the greedy matching of the specification
    counts. *)
Lemma match_loop_greedy (gts preds : list Box) (st : MatchState) :
  exists st', match_loop gts preds st = Ok st' /\
    correct_count st'
    = Spec.greedy gts preds (list_to_set (used_gt_boxes st)) (correct_count st).
Proof.
  revert st. induction preds as [| pred_box rest IH]; intros st; simpl.
  - eauto.
  - rewrite match_step_spec. simpl.
    destruct (Spec.first_fit gts (list_to_set (used_gt_boxes st)) pred_box) as [i |].
    + destruct (IH (mkMatchState (correct_count st + 1) (used_gt_boxes st ++ [i])))
        as (st' & Hl & Hc).
      exists st'. split; [exact Hl |]. rewrite Hc. simpl.
      f_equal. rewrite list_to_set_app_L. simpl.
      rewrite union_empty_r_L. apply (comm_L _).
    + apply IH.
Qed.

Lemma count_correct_predictions_spec (gt pred : list Box) (category : string) :
  count_correct_predictions gt pred category
  = Ok (Spec.match_category gt pred category).
Proof.
  unfold count_correct_predictions, Spec.match_category.
  rewrite !select_boxes_filter. simpl.
  destruct (match_loop_greedy (Spec.filter_category category gt)
              (Spec.filter_category category pred) (mkMatchState 0 []))
    as (st & Hl & Hc).
  rewrite Hl. simpl. rewrite Hc. reflexivity.
Qed.


(** ** The matching is one to one *)

Lemma omap_id_length (hits : list (option nat)) :
  length (omap id hits) <= length hits.
Proof.
  induction hits as [| [i |] rest IH]; csimpl; lia.
Qed.

Lemma omap_id_NoDup_inj (hits : list (option nat)) (j k i : nat) :
  NoDup (omap id hits) ->
  hits !! j = Some (Some i) -> hits !! k = Some (Some i) -> j = k.
Proof.
  revert j k. induction hits as [| hit rest IH]; intros j k Hnd Hj Hk.
  - rewrite lookup_nil in Hj. discriminate.
  - assert (Hrest : forall n, rest !! n = Some (Some i) -> i ∈ omap id rest).
    { intros n Hn. apply list_elem_of_omap. exists (Some i).
      split; [eapply list_elem_of_lookup_2, Hn | reflexivity]. }
    destruct hit as [i0 |]; csimpl in Hnd.
    + apply NoDup_cons in Hnd as [Hnotin Hnd].
      destruct j as [| j], k as [| k]; simpl in Hj, Hk.
      * reflexivity.
      * inversion Hj; subst. exfalso. eapply Hnotin, Hrest, Hk.
      * inversion Hk; subst. exfalso. eapply Hnotin, Hrest, Hj.
      * f_equal. eapply IH; eassumption.
    + destruct j as [| j], k as [| k]; simpl in Hj, Hk; try discriminate.
      f_equal. eapply IH; eassumption.
Qed.

(** The loop and its record of hits: the indices appended to
    [used_gt_boxes] are the hits, in order, they are new and in range,
    and [correct_count] counts them. *)
Lemma match_loop_trace (gts preds : list Box) (st : MatchState) :
  exists hits st',
    match_trace gts preds st = Ok hits /\
    match_loop gts preds st = Ok st' /\
    length hits = length preds /\
    used_gt_boxes st' = used_gt_boxes st ++ omap id hits /\
    correct_count st' = correct_count st + length (omap id hits) /\
    (NoDup (used_gt_boxes st) -> NoDup (used_gt_boxes st')) /\
    (Forall (fun i => i < length gts) (used_gt_boxes st) ->
     Forall (fun i => i < length gts) (used_gt_boxes st')).
Proof.
  revert st. induction preds as [| pred_box rest IH]; intros st; simpl.
  - exists [], st. simpl. rewrite app_nil_r, Nat.add_0_r. tauto.
  - rewrite scan_ground_truth_first_fit, match_step_spec. simpl.
    destruct (Spec.first_fit gts (list_to_set (used_gt_boxes st)) pred_box)
      as [i |] eqn:Hfit.
    + apply first_fit_Some in Hfit as [Hlt Hnew].
      rewrite elem_of_list_to_set in Hnew.
      destruct (IH (mkMatchState (correct_count st + 1) (used_gt_boxes st ++ [i])))
        as (hits & st' & Ht & Hl & Hlen & Hused & Hcount & Hnd & Hrange).
      simpl in *. exists (Some i :: hits), st'. rewrite Ht, Hl. csimpl.
      repeat split.
      * lia.
      * rewrite Hused, <- app_assoc. reflexivity.
      * lia.
      * intros H. apply Hnd. apply NoDup_app. repeat split.
        -- exact H.
        -- intros x Hx Hx'. apply list_elem_of_singleton in Hx'. subst. auto.
        -- apply NoDup_singleton.
      * intros H. apply Hrange. apply Forall_app. split; [exact H |].
        apply Forall_singleton. exact Hlt.
    + destruct (IH st) as (hits & st' & Ht & Hl & Hlen & Hused & Hcount & Hnd & Hrange).
      exists (None :: hits), st'. rewrite Ht, Hl. csimpl.
      repeat split; auto.
Qed.

Lemma NoDup_bounded_length (l : list nat) (n : nat) :
  NoDup l -> Forall (fun i => i < n) l -> length l <= n.
Proof.
  intros Hnd Hall.
  assert (Hseq : length (seq 0 n) = n) by apply length_seq.
  assert (Hsub : l ⊆+ seq 0 n); [| apply submseteq_length in Hsub; lia].
  apply NoDup_submseteq; [exact Hnd |].
  intros x Hx. rewrite Forall_forall in Hall. apply elem_of_seq.
  specialize (Hall x Hx). lia.
Qed.

(** C3: the matching is at most one to one.  [hits] gives, for each
    predicted box of the category, the one ground truth index it consumed,
    if any; no index is consumed twice; [correctCount] is the number of
    hits and is at most each of the two counts. *)
Theorem matching_one_to_one (gt pred : list Box) (category : string) :
  let gts := select_boxes category gt [] in
  let preds := select_boxes category pred [] in
  exists hits st,
    match_trace gts preds (mkMatchState 0 []) = Ok hits /\
    match_loop gts preds (mkMatchState 0 []) = Ok st /\
    count_correct_predictions gt pred category
      = Ok (length gts, length preds, correct_count st) /\
    length hits = length preds /\
    used_gt_boxes st = omap id hits /\
    (forall j k i, hits !! j = Some (Some i) -> hits !! k = Some (Some i) -> j = k) /\
    (forall j i, hits !! j = Some (Some i) -> i < length gts) /\
    correct_count st = length (omap id hits) /\
    correct_count st <= Nat.min (length gts) (length preds).
Proof.
  intros gts preds.
  destruct (match_loop_trace gts preds (mkMatchState 0 []))
    as (hits & st & Ht & Hl & Hlen & Hused & Hcount & Hnd & Hrange).
  simpl in *. specialize (Hnd (NoDup_nil_2)). specialize (Hrange (Forall_nil_2 _)).
  rewrite Hused in Hnd, Hrange.
  exists hits, st. repeat split; try assumption.
  - unfold count_correct_predictions. fold gts preds. rewrite Hl. reflexivity.
  - intros j k i. apply omap_id_NoDup_inj, Hnd.
  - intros j i Hj. rewrite Forall_forall in Hrange. apply Hrange.
    apply list_elem_of_omap. exists (Some i).
    split; [eapply list_elem_of_lookup_2, Hj | reflexivity].
  - rewrite Hcount. apply Nat.min_glb.
    + apply NoDup_bounded_length; assumption.
    + rewrite <- Hlen. apply omap_id_length.
Qed.

Lemma matching_one_to_one_witness :
  let gt := [bx "button" 0 0 10 10; bx "Button" 0 0 10 10] in
  let pred := [bx "BUTTON" 0 0 10 10; bx "button" 1 0 10 10] in
  exists hits,
    match_trace (select_boxes "button" gt []) (select_boxes "button" pred [])
                (mkMatchState 0 []) = Ok hits /\
    hits !! 1 = Some (Some 1) /\
    1 < length (select_boxes "button" gt []).
Proof.
  intros gt pred.
  destruct (matching_one_to_one gt pred "button")
    as (hits & st & Ht & _ & _ & _ & _ & _ & Hrange & _).
  exists hits. split; [exact Ht |].
  assert (Hhits : hits = [Some 0; Some 1]).
  { vm_compute in Ht. injection Ht as <-. reflexivity. }
  assert (H1 : hits !! 1 = Some (Some 1)) by (rewrite Hhits; reflexivity).
  split; [exact H1 |]. exact (Hrange 1 1 H1).
Defined.

(** The examples of the specification. *)
Example match_overlapping :
  count_correct_predictions [bx "button" 0 0 100 50] [bx "button" 5 5 95 45] "button"
  = Ok (1, 1, 1).
Proof. reflexivity. Qed.

Example match_disjoint :
  count_correct_predictions [bx "button" 0 0 10 10] [bx "button" 50 50 60 60] "button"
  = Ok (1, 1, 0).
Proof. reflexivity. Qed.

(** First fit, not best fit: the first ground truth box has overlap 1/2
    with the first predicted box and the second has overlap 1; the first
    is taken, and the second predicted box, which overlaps only the
    first enough, finds nothing left. *)
Example first_fit_not_best_fit :
  let gt := [bx "button" 0 0 10 5; bx "button" 0 0 10 10] in
  let pred := [bx "button" 0 0 10 10; bx "button" 0 0 10 4] in
  match_trace gt pred (mkMatchState 0 []) = Ok [Some 0; None] /\
  count_correct_predictions gt pred "button" = Ok (2, 2, 1).
Proof. split; reflexivity. Qed.

(** ** One more predicted box at the end *)

Lemma greedy_ge (gts preds : list Box) (consumed : gset nat) (c : nat) :
  c <= Spec.greedy gts preds consumed c.
Proof.
  revert consumed c. induction preds as [| pred rest IH]; intros consumed c; simpl.
  - lia.
  - destruct (Spec.first_fit gts consumed pred) as [i |].
    + specialize (IH ({[i]} ∪ consumed) (c + 1)). lia.
    + apply IH.
Qed.

Lemma greedy_app_ge (gts preds more : list Box) (consumed : gset nat) (c : nat) :
  Spec.greedy gts preds consumed c <= Spec.greedy gts (preds ++ more) consumed c.
Proof.
  revert consumed c. induction preds as [| pred rest IH]; intros consumed c; simpl.
  - apply greedy_ge.
  - destruct (Spec.first_fit gts consumed pred); apply IH.
Qed.

Lemma filter_category_snoc (category : string) (boxes : list Box) (box : Box) :
  Spec.filter_category category (boxes ++ [box])
  = Spec.filter_category category boxes
    ++ (if tag_matches category box then [box] else []).
Proof.
  unfold Spec.filter_category. rewrite filter_app. f_equal.
  rewrite filter_cons, filter_nil.
  destruct (tag_matches category box) eqn:E.
  - apply tag_matches_same_category in E. rewrite decide_True by assumption.
    reflexivity.
  - rewrite decide_False; [reflexivity |].
    intros H. apply tag_matches_same_category in H. congruence.
Qed.

(** C9: a predicted box appended to the predictions does not lower
    [correctCount], leaves the ground truth count as it is, and adds one
    to the prediction count exactly when its tag is the category. *)
Theorem append_prediction (gt pred : list Box) (box : Box) (category : string) :
  exists g p c c',
    count_correct_predictions gt pred category = Ok (g, p, c) /\
    count_correct_predictions gt (pred ++ [box]) category
      = Ok (g, (if tag_matches category box then p + 1 else p), c') /\
    c <= c'.
Proof.
  rewrite !count_correct_predictions_spec. unfold Spec.match_category.
  rewrite filter_category_snoc.
  set (gts := Spec.filter_category category gt).
  set (preds := Spec.filter_category category pred).
  set (more := if tag_matches category box then [box] else []).
  exists (length gts), (length preds), (Spec.greedy gts preds ∅ 0),
         (Spec.greedy gts (preds ++ more) ∅ 0).
  split; [reflexivity |]. split; [| apply greedy_app_ge].
  rewrite length_app. subst more. destruct (tag_matches category box); simpl.
  - reflexivity.
  - rewrite Nat.add_0_r. reflexivity.
Qed.

End Matcher.

(** * Properties of the aggregation and of the scores *)

Section Aggregator.

Lemma add_to_ok (upd : Totals -> Totals) (key : string)
    (results : gmap string Totals) (t : Totals) :
  results !! key = Some t ->
  add_to upd key results = Ok (<[key := upd t]> results).
Proof. intros H. unfold add_to, getitem. rewrite H. reflexivity. Qed.

Lemma count_file_ok (gt pred : list Box) (types : list string) :
  NoDup types ->
  forall results : gmap string Totals,
  (forall k, k ∈ types -> is_Some (results !! k)) ->
  exists results',
    count_file gt pred types results = Ok results' /\
    forall k, results' !! k
              = if decide (k ∈ types)
                then add_counts (Spec.match_category gt pred k) <$> results !! k
                else results !! k.
Proof.
  induction 1 as [| et rest Hnotin Hnd IH]; intros results Hdom; simpl.
  - exists results. split; [reflexivity |]. intros k.
    destruct (decide (k ∈ [])) as [Hk | _]; [| reflexivity].
    apply not_elem_of_nil in Hk. contradiction.
  - rewrite count_correct_predictions_spec. simpl.
    destruct (Hdom et) as [t Ht]; [left |].
    rewrite (add_to_ok _ _ _ _ Ht). simpl.
    erewrite add_to_ok by apply lookup_insert_eq. simpl.
    erewrite add_to_ok by apply lookup_insert_eq. simpl.
    rewrite !insert_insert_eq.
    destruct (IH (<[et := add_counts (Spec.match_category gt pred et) t]> results))
      as (results' & Hc & Hl).
    { intros k Hk. rewrite lookup_insert_ne by (intros ->; contradiction).
      apply Hdom. right. exact Hk. }
    exists results'. split; [exact Hc |]. intros k. rewrite Hl.
    destruct (decide (k = et)) as [-> | Hne].
    + destruct (decide (et ∈ rest)) as [? | _]; [contradiction |].
      destruct (decide (et ∈ et :: rest)) as [_ | Hn]; [| exfalso; apply Hn; left].
      rewrite lookup_insert_eq, Ht. reflexivity.
    + rewrite lookup_insert_ne by congruence.
      destruct (decide (k ∈ rest)) as [Hin | Hout];
        destruct (decide (k ∈ et :: rest)) as [Hin' | Hout']; try reflexivity.
      * exfalso. apply Hout'. right. exact Hin.
      * apply elem_of_cons in Hin' as [? | ?]; contradiction.
Qed.

Lemma element_types_NoDup : NoDup element_types.
Proof. apply (bool_decide_unpack _). vm_compute. exact I. Qed.

Lemma add_totals_zero (t : Totals) : add_totals (mkTotals 0 0 0) t = t.
Proof. destruct t. unfold add_totals. simpl. f_equal; lia. Qed.

Lemma add_totals_counts (counts : nat * nat * nat) (sum t : Totals) :
  add_totals sum (add_counts counts t)
  = add_totals (mkTotals (counts.1.1 + ground_truth_total sum)
                         (counts.1.2 + predicted_total sum)
                         (counts.2 + correct_total sum)) t.
Proof. unfold add_totals, add_counts. simpl. f_equal; lia. Qed.

(** The loop over the files adds, to the totals of each element type,
    the sum of the counts of the files. *)
Lemma process_files_ok (files : list FilePair) :
  forall results : gmap string Totals,
  (forall k, k ∈ element_types -> is_Some (results !! k)) ->
  exists results',
    process_files files results = Ok results' /\
    forall k, results' !! k
              = if decide (k ∈ element_types)
                then add_totals (Spec.sum_counts k files) <$> results !! k
                else results !! k.
Proof.
  induction files as [| [gt [pred |]] rest IH]; intros results Hdom;
    cbn [process_files prediction_data ground_truth_data].
  - exists results. split; [reflexivity |]. intros k.
    destruct (decide (k ∈ element_types)); [| reflexivity].
    destruct (results !! k) as [t |]; simpl; [| reflexivity].
    f_equal. symmetry. apply add_totals_zero.
  - destruct (count_file_ok gt pred element_types element_types_NoDup results Hdom)
      as (results1 & Hc & Hl1).
    rewrite Hc. simpl.
    destruct (IH results1) as (results' & Hp & Hl).
    { intros k Hk. rewrite Hl1. rewrite decide_True by assumption.
      destruct (Hdom k Hk) as [t Ht]. rewrite Ht. simpl. eauto. }
    exists results'. split; [exact Hp |]. intros k. rewrite Hl, Hl1.
    destruct (decide (k ∈ element_types)); [| reflexivity].
    destruct (results !! k) as [t |]; simpl; [| reflexivity].
    f_equal. rewrite add_totals_counts. reflexivity.
  - destruct (IH results Hdom) as (results' & Hp & Hl).
    exists results'. split; [exact Hp |]. intros k. rewrite Hl. reflexivity.
Qed.

Lemma init_results_lookup (k : string) :
  init_results !! k
  = if decide (k ∈ element_types) then Some (mkTotals 0 0 0) else None.
Proof.
  unfold init_results, element_types. simpl.
  destruct (decide (k ∈ ["button"; "input"; "radio"; "dropdown"])) as [Hin | Hout].
  - repeat (apply elem_of_cons in Hin as [-> | Hin]; [reflexivity |]).
    apply not_elem_of_nil in Hin. contradiction.
  - rewrite !lookup_insert_ne by (intros <-; apply Hout; repeat constructor).
    apply lookup_empty.
Qed.

(** The totals after all files: the sums of the counts. *)
Lemma totals_are_sums (files : list FilePair) :
  exists results,
    process_files files init_results = Ok results /\
    forall k, results !! k
              = if decide (k ∈ element_types)
                then Some (Spec.sum_counts k files) else None.
Proof.
  destruct (process_files_ok files init_results) as (results & Hp & Hl).
  { intros k Hk. rewrite init_results_lookup, decide_True by assumption. eauto. }
  exists results. split; [exact Hp |]. intros k. rewrite Hl, init_results_lookup.
  destruct (decide (k ∈ element_types)); [| reflexivity].
  simpl. destruct (Spec.sum_counts k files). reflexivity.
Qed.

Lemma sum_counts_Permutation (category : string) (files files' : list FilePair) :
  files ≡ₚ files' -> Spec.sum_counts category files = Spec.sum_counts category files'.
Proof.
  intros H. unfold Spec.sum_counts.
  f_equal; apply sum_list_with_Permutation_proper, H.
Qed.

(** C5: the final totals of every category are the same for every
    order of the files: they are the sums of the counts of the files. *)
Theorem totals_order_independent (files files' : list FilePair) :
  files ≡ₚ files' ->
  exists results,
    process_files files init_results = Ok results /\
    process_files files' init_results = Ok results /\
    forall category, category ∈ element_types ->
      results !! category = Some (Spec.sum_counts category files).
Proof.
  intros Hperm.
  destruct (totals_are_sums files) as (results & Hp & Hl).
  destruct (totals_are_sums files') as (results' & Hp' & Hl').
  assert (Heq : results' = results).
  { apply map_eq. intros k. rewrite Hl, Hl'.
    destruct (decide (k ∈ element_types)); [| reflexivity].
    f_equal. symmetry. apply sum_counts_Permutation, Hperm. }
  subst results'. exists results. repeat split; try assumption.
  intros category Hin. rewrite Hl, decide_True by assumption. reflexivity.
Qed.

Lemma totals_order_independent_witness :
  let f1 := mkFilePair [bx "button" 0 0 100 50] (Some [bx "Button" 5 5 95 45]) in
  let f2 := mkFilePair [bx "input" 0 0 10 10] (Some [bx "input" 50 50 60 60]) in
  exists results,
    process_files [f1; f2] init_results = Ok results /\
    process_files [f2; f1] init_results = Ok results /\
    forall category, category ∈ element_types ->
      results !! category = Some (Spec.sum_counts category [f1; f2]).
Proof.
  intros f1 f2. apply (totals_order_independent [f1; f2] [f2; f1]).
  apply perm_swap.
Defined.

(** ** The scores *)

Lemma Q_of_nat_pos (n : nat) : (0 <? n)%nat = true -> ~ (Q_of_nat n == 0)%Q.
Proof.
  intros H. apply Nat.ltb_lt in H. unfold Q_of_nat, Qeq. simpl. lia.
Qed.

Lemma calculate_scores_spec (g p c : nat) :
  calculate_scores g p c = Ok (Spec.scores_of (mkTotals g p c)).
Proof.
  unfold calculate_scores, Spec.scores_of, Spec.f1_of, Spec.precision_of,
    Spec.recall_of. simpl.
  assert (Hp : (if (0 <? p)%nat then true_div (Q_of_nat c) (Q_of_nat p) else Ok 0%Q)
               = Ok (if (0 <? p)%nat then (Q_of_nat c / Q_of_nat p)%Q else 0%Q)).
  { destruct (0 <? p)%nat eqn:E; [| reflexivity].
    apply true_div_ok, Q_of_nat_pos, E. }
  assert (Hg : (if (0 <? g)%nat then true_div (Q_of_nat c) (Q_of_nat g) else Ok 0%Q)
               = Ok (if (0 <? g)%nat then (Q_of_nat c / Q_of_nat g)%Q else 0%Q)).
  { destruct (0 <? g)%nat eqn:E; [| reflexivity].
    apply true_div_ok, Q_of_nat_pos, E. }
  rewrite Hp. simpl. rewrite Hg. simpl.
  set (pr := if (0 <? p)%nat then _ else _).
  set (re := if (0 <? g)%nat then _ else _).
  destruct (Qlt_bool 0 (pr + re)) eqn:E; [| reflexivity].
  apply Qlt_bool_iff in E. rewrite true_div_ok; [reflexivity |].
  intros H0. rewrite H0 in E. apply (Qlt_irrefl 0), E.
Qed.

Lemma report_spec (totals_of : string -> Totals) (results : gmap string Totals)
    (types : list string) :
  (forall k, k ∈ types -> results !! k = Some (totals_of k)) ->
  report types results
  = Ok (map (fun category =>
               mkReportEntry category (totals_of category)
                             (Spec.scores_of (totals_of category)))
            types).
Proof.
  induction types as [| et rest IH]; intros Hl; simpl.
  - reflexivity.
  - unfold getitem. rewrite (Hl et) by left. simpl.
    rewrite calculate_scores_spec. simpl.
    rewrite IH by (intros k Hk; apply Hl; right; exact Hk). simpl.
    destruct (totals_of et). reflexivity.
Qed.

Lemma main_spec (files : list FilePair) : main files = Ok (Spec.aggregate files).
Proof.
  unfold main. destruct (totals_are_sums files) as (results & Hp & Hl).
  rewrite Hp. change (report element_types results = Ok (Spec.aggregate files)).
  apply (report_spec (fun k => Spec.sum_counts k files)).
  intros k Hk. rewrite Hl, decide_True by assumption. reflexivity.
Qed.

(** ** A category that occurs nowhere *)

Lemma filter_category_none (category : string) (boxes : list Box) :
  forallb (fun box => negb (bool_decide (Spec.same_category category box))) boxes = true ->
  Spec.filter_category category boxes = [].
Proof.
  unfold Spec.filter_category. induction boxes as [| box rest IH]; simpl; intros H.
  - reflexivity.
  - apply andb_true_iff in H as [Hb Hrest]. rewrite filter_cons.
    apply negb_true_iff, bool_decide_eq_false in Hb.
    rewrite decide_False by assumption. apply IH, Hrest.
Qed.

Lemma absent_sum_counts (category : string) (files : list FilePair) :
  Spec.absent category files = true ->
  Spec.sum_counts category files = mkTotals 0 0 0.
Proof.
  unfold Spec.absent, Spec.sum_counts.
  induction files as [| [gt [pred |]] rest IH]; simpl; intros H.
  - reflexivity.
  - apply andb_true_iff in H as [Hfile Hrest].
    apply andb_true_iff in Hfile as [Hgt Hpred].
    specialize (IH Hrest). injection IH as -> -> ->.
    unfold Spec.file_counts, Spec.match_category. simpl.
    rewrite (filter_category_none _ _ Hgt), (filter_category_none _ _ Hpred).
    reflexivity.
  - apply andb_true_iff in H as [_ Hrest].
    specialize (IH Hrest). injection IH as -> -> ->. reflexivity.
Qed.

(** C2: [main] never raises; each category is reported with its totals
    and with precision, recall and F1 computed from them by the guarded
    quotients; a category that occurs in no file has totals 0 and
    precision, recall and F1 equal to 0. *)
Theorem scores_from_totals (files : list FilePair) :
  exists entries,
    main files = Ok entries /\
    map entry_type entries = element_types /\
    forall e, e ∈ entries ->
      let t := entry_totals e in
      let s := entry_scores e in
      t = Spec.sum_counts (entry_type e) files /\
      precision s = (if (0 <? predicted_total t)%nat
                     then Q_of_nat (correct_total t) / Q_of_nat (predicted_total t)
                     else 0)%Q /\
      recall s = (if (0 <? ground_truth_total t)%nat
                  then Q_of_nat (correct_total t) / Q_of_nat (ground_truth_total t)
                  else 0)%Q /\
      f1_score s = (if Qlt_bool 0 (precision s + recall s)
                    then 2 * precision s * recall s / (precision s + recall s)
                    else 0)%Q /\
      (Spec.absent (entry_type e) files = true ->
       t = mkTotals 0 0 0 /\ precision s = 0%Q /\ recall s = 0%Q /\ f1_score s = 0%Q).
Proof.
  exists (Spec.aggregate files). split; [apply main_spec |]. split.
  - reflexivity.
  - intros e He. unfold Spec.aggregate in He.
    apply list_elem_of_In, in_map_iff in He as (category & <- & _). simpl.
    do 4 (split; [reflexivity |]).
    intros Habs. rewrite (absent_sum_counts _ _ Habs). repeat split.
Qed.

Lemma scores_from_totals_witness :
  let files := [mkFilePair [bx "button" 0 0 100 50] (Some [bx "Button" 5 5 95 45])] in
  exists entries,
    main files = Ok entries /\
    forall e, e ∈ entries -> entry_type e = "radio" ->
      entry_totals e = mkTotals 0 0 0 /\ entry_scores e = mkScores 0 0 0.
Proof.
  intros files. destruct (scores_from_totals files) as (entries & Hmain & _ & Hall).
  exists entries. split; [exact Hmain |]. intros e He Hty.
  destruct (Hall e He) as (_ & _ & _ & _ & Habs).
  assert (Ha : Spec.absent (entry_type e) files = true) by (rewrite Hty; reflexivity).
  destruct (Habs Ha) as (Ht & Hp & Hr & Hf). split; [exact Ht |].
  destruct (entry_scores e); simpl in *; subst; reflexivity.
Defined.

End Aggregator.

(** * Further properties of [calculate_overlap] *)

Section GeometryMore.
Local Open Scope Q_scope.




















End GeometryMore.

(** * Further properties of [count_correct_predictions] *)

Section MatcherMore.

Lemma qualifies_true (gts : list Box) (consumed : gset nat) (pred : Box) (i : nat) :
  Spec.qualifies gts consumed pred i = true <->
  (i ∉ consumed) /\
  exists g, gts !! i = Some g /\ Qle_bool (1 # 2) (Spec.overlap pred g) = true.
Proof.
  unfold Spec.qualifies. rewrite andb_true_iff, bool_decide_eq_true.
  destruct (gts !! i) as [g |]; split.
  - intros [H1 H2]. eauto.
  - intros (H1 & g' & [= <-] & H2). auto.
  - intros [_ H]. discriminate.
  - intros (_ & g' & H & _). discriminate.
Qed.

Lemma first_fit_None (gts : list Box) (consumed : gset nat) (pred : Box) :
  Spec.first_fit gts consumed pred = None ->
  forall i g, gts !! i = Some g -> i ∉ consumed ->
    Qle_bool (1 # 2) (Spec.overlap pred g) = false.
Proof.
  unfold Spec.first_fit. intros H i g Hg Hi.
  assert (Hq : Spec.qualifies gts consumed pred i = false).
  { apply (find_none _ _ H). apply in_seq. apply lookup_lt_Some in Hg. lia. }
  apply not_true_iff_false. intros Ht. apply not_true_iff_false in Hq. apply Hq.
  apply qualifies_true. eauto.
Qed.

(** What the record of hits says: a hit is an unconsumed ground truth
    box of overlap at least 1/2; after a miss, every ground truth box still
    unconsumed at the end has overlap below 1/2 with the predicted box. *)
Lemma match_trace_hits (gts preds : list Box) :
  forall (st st' : MatchState) (hits : list (option nat)),
  match_trace gts preds st = Ok hits ->
  match_loop gts preds st = Ok st' ->
  (forall j i, hits !! j = Some (Some i) ->
     (i ∉ used_gt_boxes st) /\
     exists g p, gts !! i = Some g /\ preds !! j = Some p /\
                 Qle_bool (1 # 2) (Spec.overlap p g) = true) /\
  (forall j p, hits !! j = Some None -> preds !! j = Some p ->
     forall i g, gts !! i = Some g -> i ∉ used_gt_boxes st' ->
       Qle_bool (1 # 2) (Spec.overlap p g) = false).
Proof.
  induction preds as [| pred_box rest IH]; intros st st' hits Ht Hl; simpl in Ht, Hl.
  - injection Ht as <-. split; intros j ? H; rewrite lookup_nil in H; discriminate.
  - rewrite scan_ground_truth_first_fit, match_step_spec in Ht.
    rewrite match_step_spec in Hl. simpl in Ht, Hl.
    destruct (Spec.first_fit gts (list_to_set (used_gt_boxes st)) pred_box)
      as [i0 |] eqn:Hfit.
    + set (st1 := mkMatchState (correct_count st + 1) (used_gt_boxes st ++ [i0])) in *.
      destruct (match_loop_trace gts rest st1) as (hits1 & st2 & Ht1 & Hl1 & _).
      rewrite Ht1 in Ht. rewrite Hl1 in Hl. simpl in Ht.
      injection Ht as <-. injection Hl as <-.
      destruct (IH st1 st2 hits1 Ht1 Hl1) as [IHa IHb].
      apply first_fit_least in Hfit as [Hq _]. apply qualifies_true in Hq.
      destruct Hq as (Hnew & g & Hg & Hov). rewrite elem_of_list_to_set in Hnew.
      split.
      * intros [| j] i Hj; simpl in Hj.
        -- injection Hj as <-. split; [exact Hnew |]. exists g, pred_box. auto.
        -- destruct (IHa j i Hj) as (Hni & g' & p' & ? & ? & ?).
           split; [| exists g', p'; auto].
           intros Hin. apply Hni. subst st1. simpl. apply elem_of_app. left. exact Hin.
      * intros [| j] p Hj Hp; simpl in Hj, Hp; [discriminate |].
        apply (IHb j p Hj Hp).
    + destruct (match_loop_trace gts rest st) as (hits1 & st2 & Ht1 & Hl1 & _ & Hused & _).
      rewrite Ht1 in Ht. rewrite Hl1 in Hl. simpl in Ht.
      injection Ht as <-. injection Hl as <-.
      destruct (IH st st2 hits1 Ht1 Hl1) as [IHa IHb].
      split.
      * intros [| j] i Hj; simpl in Hj; [discriminate |]. apply (IHa j i Hj).
      * intros [| j] p Hj Hp; simpl in Hj, Hp.
        -- injection Hp as <-. intros i g Hg Hi.
           apply (first_fit_None _ _ _ Hfit i g Hg).
           rewrite elem_of_list_to_set. intros Hin. apply Hi.
           rewrite Hused. apply elem_of_app. left. exact Hin.
        -- apply (IHb j p Hj Hp).
Qed.

Lemma select_boxes_nil_out (category : string) (boxes : list Box) :
  select_boxes category boxes [] = Spec.filter_category category boxes.
Proof. apply select_boxes_filter. Qed.

(** The run of the code on the boxes of one category. *)
Lemma count_correct_predictions_run (gt pred : list Box) (category : string) :
  let gts := Spec.filter_category category gt in
  let preds := Spec.filter_category category pred in
  exists hits st,
    match_trace gts preds (mkMatchState 0 []) = Ok hits /\
    match_loop gts preds (mkMatchState 0 []) = Ok st /\
    count_correct_predictions gt pred category
      = Ok (length gts, length preds, correct_count st) /\
    length hits = length preds /\
    used_gt_boxes st = omap id hits /\
    correct_count st = length (omap id hits).
Proof.
  intros gts preds.
  destruct (match_loop_trace gts preds (mkMatchState 0 []))
    as (hits & st & Ht & Hl & Hlen & Hused & Hcount & _).
  exists hits, st. repeat split; try assumption.
  unfold count_correct_predictions. rewrite !select_boxes_nil_out.
  fold gts preds. rewrite Hl. reflexivity.
Qed.

Lemma overlap_test_code (g p : Box) (t : bool) :
  Qle_bool (1 # 2) (Spec.overlap p g) = t ->
  exists v, calculate_overlap g p = Ok v /\ Qle_bool (1 # 2) v = t.
Proof.
  intros H. exists (Spec.overlap g p). split; [apply calculate_overlap_spec |].
  rewrite <- H. apply Qle_bool_proper, overlap_comm.
Qed.

(** X5: every match counted pairs a predicted box with a ground truth
    box of the category whose overlap with it is at least 1/2. *)
Theorem matches_have_overlap (gt pred : list Box) (category : string) :
  let gts := Spec.filter_category category gt in
  let preds := Spec.filter_category category pred in
  exists hits st,
    match_trace gts preds (mkMatchState 0 []) = Ok hits /\
    match_loop gts preds (mkMatchState 0 []) = Ok st /\
    count_correct_predictions gt pred category
      = Ok (length gts, length preds, correct_count st) /\
    correct_count st = length (omap id hits) /\
    forall j i, hits !! j = Some (Some i) ->
      exists g p v, gts !! i = Some g /\ preds !! j = Some p /\
                    calculate_overlap g p = Ok v /\ (1 # 2 <= v)%Q.
Proof.
  intros gts preds.
  destruct (count_correct_predictions_run gt pred category)
    as (hits & st & Ht & Hl & Hc & _ & _ & Hcount).
  fold gts preds in Ht, Hl, Hc.
  exists hits, st. repeat split; try assumption.
  intros j i Hj.
  destruct (match_trace_hits gts preds _ _ _ Ht Hl) as [Ha _].
  destruct (Ha j i Hj) as (_ & g & p & Hg & Hp & Hov).
  apply overlap_test_code in Hov as (v & Hv & Hle).
  exists g, p, v. repeat split; try assumption. apply Qle_bool_iff, Hle.
Qed.

(** X6: the matching cannot be extended: a predicted box left unmatched
    has overlap below 1/2 with every ground truth box left unconsumed. *)
Theorem matching_is_maximal (gt pred : list Box) (category : string) :
  let gts := Spec.filter_category category gt in
  let preds := Spec.filter_category category pred in
  exists hits st,
    match_trace gts preds (mkMatchState 0 []) = Ok hits /\
    match_loop gts preds (mkMatchState 0 []) = Ok st /\
    forall j p i g,
      hits !! j = Some None -> preds !! j = Some p ->
      gts !! i = Some g -> i ∉ used_gt_boxes st ->
      exists v, calculate_overlap g p = Ok v /\ (v < 1 # 2)%Q.
Proof.
  intros gts preds.
  destruct (count_correct_predictions_run gt pred category)
    as (hits & st & Ht & Hl & _).
  fold gts preds in Ht, Hl.
  exists hits, st. repeat split; try assumption.
  intros j p i g Hj Hp Hg Hi.
  destruct (match_trace_hits gts preds _ _ _ Ht Hl) as [_ Hb].
  pose proof (Hb j p Hj Hp i g Hg Hi) as Hov.
  apply overlap_test_code in Hov as (v & Hv & Hle).
  exists v. split; [exact Hv |]. apply Qle_bool_false, Hle.
Qed.

Lemma omap_id_nil (hits : list (option nat)) (j : nat) :
  omap id hits = [] -> j < length hits -> hits !! j = Some None.
Proof.
  revert j. induction hits as [| [i |] rest IH]; intros j; csimpl; intros H Hj.
  - lia.
  - discriminate.
  - destruct j as [| j]; simpl; [reflexivity |]. apply IH; [exact H | lia].
Qed.

Lemma omap_id_cons (hits : list (option nat)) :
  length (omap id hits) <> 0 -> exists j i, hits !! j = Some (Some i).
Proof.
  induction hits as [| [i |] rest IH]; csimpl; intros H.
  - contradiction.
  - exists 0, i. reflexivity.
  - destruct (IH H) as (j & i & Hj). exists (S j), i. exact Hj.
Qed.

(** X7: the count is 0 exactly when no predicted box of the category has
    overlap at least 1/2 with a ground truth box of the category. *)
Theorem no_match_iff (gt pred : list Box) (category : string) :
  let gts := Spec.filter_category category gt in
  let preds := Spec.filter_category category pred in
  exists c,
    count_correct_predictions gt pred category = Ok (length gts, length preds, c) /\
    (c = 0 <->
     forall g p, g ∈ gts -> p ∈ preds ->
       exists v, calculate_overlap g p = Ok v /\ (v < 1 # 2)%Q).
Proof.
  intros gts preds.
  destruct (count_correct_predictions_run gt pred category)
    as (hits & st & Ht & Hl & Hc & Hlen & Hused & Hcount).
  fold gts preds in Ht, Hl, Hc, Hlen.
  destruct (match_trace_hits gts preds _ _ _ Ht Hl) as [Ha Hb].
  exists (correct_count st). split; [exact Hc |]. split.
  - intros H0 g p Hg Hp.
    apply list_elem_of_lookup in Hg as [i Hi]. apply list_elem_of_lookup in Hp as [j Hj].
    assert (Hnil : omap id hits = []).
    { apply length_zero_iff_nil. rewrite <- Hcount. exact H0. }
    assert (Hmiss : hits !! j = Some None).
    { apply omap_id_nil; [exact Hnil |]. rewrite Hlen. eapply lookup_lt_Some, Hj. }
    assert (Hfree : i ∉ used_gt_boxes st).
    { rewrite Hused, Hnil. apply not_elem_of_nil. }
    pose proof (Hb j p Hmiss Hj i g Hi Hfree) as Hov.
    apply overlap_test_code in Hov as (v & Hv & Hle).
    exists v. split; [exact Hv |]. apply Qle_bool_false, Hle.
  - intros Hall. destruct (decide (correct_count st = 0)) as [H0 | Hn]; [exact H0 |].
    exfalso. rewrite Hcount in Hn.
    destruct (omap_id_cons hits Hn) as (j & i & Hj).
    destruct (Ha j i Hj) as (_ & g & p & Hg & Hp & Hov).
    destruct (Hall g p) as (v & Hv & Hlt).
    + eapply list_elem_of_lookup_2, Hg.
    + eapply list_elem_of_lookup_2, Hp.
    + apply overlap_test_code in Hov as (v' & Hv' & Hle).
      rewrite Hv in Hv'. injection Hv' as <-.
      apply Qle_bool_iff in Hle. apply (Qlt_not_le _ _ Hlt), Hle.
Qed.

Lemma filter_category_Forall_none (category : string) (boxes : list Box) :
  Forall (fun b => tag_matches category b = false) boxes ->
  Spec.filter_category category boxes = [].
Proof.
  unfold Spec.filter_category. induction 1 as [| box rest Hb _ IH]; [reflexivity |].
  rewrite filter_cons, decide_False; [exact IH |].
  intros H. apply tag_matches_same_category in H. congruence.
Qed.

Lemma greedy_no_ground_truth (preds : list Box) (consumed : gset nat) (c : nat) :
  Spec.greedy [] preds consumed c = c.
Proof.
  revert consumed c. induction preds as [| pred rest IH]; intros consumed c; simpl;
    [reflexivity | apply IH].
Qed.

(** X8: with no ground truth box of the category the result is
    [(0, number of predicted boxes of the category, 0)], and with no
    predicted box of the category it is
    [(number of ground truth boxes of the category, 0, 0)]. *)
Theorem count_correct_predictions_one_side_empty (gt pred : list Box) (category : string) :
  (Forall (fun b => tag_matches category b = false) gt ->
   count_correct_predictions gt pred category
   = Ok (0, length (Spec.filter_category category pred), 0)) /\
  (Forall (fun b => tag_matches category b = false) pred ->
   count_correct_predictions gt pred category
   = Ok (length (Spec.filter_category category gt), 0, 0)).
Proof.
  split; intros H; rewrite count_correct_predictions_spec; unfold Spec.match_category;
    rewrite (filter_category_Forall_none _ _ H); simpl.
  - rewrite greedy_no_ground_truth. reflexivity.
  - reflexivity.
Qed.

Lemma count_correct_predictions_one_side_empty_witness :
  count_correct_predictions [bx "input" 0 0 10 10] [bx "button" 0 0 10 10] "button"
  = Ok (0, 1, 0) /\
  count_correct_predictions [bx "button" 0 0 10 10] [] "button" = Ok (1, 0, 0).
Proof.
  split.
  - apply (proj1 (count_correct_predictions_one_side_empty
                    [bx "input" 0 0 10 10] [bx "button" 0 0 10 10] "button")).
    repeat constructor.
  - apply (proj2 (count_correct_predictions_one_side_empty
                    [bx "button" 0 0 10 10] [] "button")).
    constructor.
Defined.

Lemma filter_category_drop (category : string) (before after : list Box) (box : Box) :
  tag_matches category box = false ->
  Spec.filter_category category (before ++ box :: after)
  = Spec.filter_category category (before ++ after).
Proof.
  intros H. unfold Spec.filter_category. rewrite !filter_app, filter_cons.
  rewrite decide_False; [reflexivity |].
  intros Hs. apply tag_matches_same_category in Hs. congruence.
Qed.

(** X9: a box of another category, wherever it stands among the ground
    truth boxes or among the predicted boxes, does not change the result. *)
Theorem other_category_ignored (category : string) (box : Box)
    (before after others : list Box) :
  tag_matches category box = false ->
  count_correct_predictions (before ++ box :: after) others category
  = count_correct_predictions (before ++ after) others category /\
  count_correct_predictions others (before ++ box :: after) category
  = count_correct_predictions others (before ++ after) category.
Proof.
  intros H. rewrite !count_correct_predictions_spec. unfold Spec.match_category.
  rewrite (filter_category_drop _ _ _ _ H). split; reflexivity.
Qed.

Lemma other_category_ignored_witness :
  let b1 := bx "button" 0 0 100 50 in
  let b2 := bx "Button" 5 5 95 45 in
  let r := bx "radio" 0 0 100 50 in
  count_correct_predictions ([b1] ++ r :: []) [b2] "button"
  = count_correct_predictions ([b1] ++ []) [b2] "button" /\
  count_correct_predictions [b2] ([b1] ++ r :: []) "button"
  = count_correct_predictions [b2] ([b1] ++ []) "button".
Proof.
  intros b1 b2 r. apply (other_category_ignored "button" r [b1] [] [b2]). reflexivity.
Defined.

Lemma filter_category_lower (c1 c2 : string) (boxes : list Box) :
  lower c1 = lower c2 ->
  Spec.filter_category c1 boxes = Spec.filter_category c2 boxes.
Proof.
  intros H. unfold Spec.filter_category. apply list_filter_iff.
  intros b. unfold Spec.same_category. rewrite H. reflexivity.
Qed.

Lemma lower_ascii_idempotent (c : ascii) : lower_ascii (lower_ascii c) = lower_ascii c.
Proof.
  destruct c as [[] [] [] [] [] [] [] []]; reflexivity.
Qed.

Lemma lower_idempotent (s : string) : lower (lower s) = lower s.
Proof.
  induction s as [| c rest IH]; simpl; [reflexivity |].
  rewrite lower_ascii_idempotent, IH. reflexivity.
Qed.

(** X10: the category is compared without regard to case: two spellings
    with the same lower case give the same result, and so does the lower
    case of a spelling. *)
Theorem category_case_insensitive (gt pred : list Box) (c1 c2 : string) :
  (lower c1 = lower c2 ->
   count_correct_predictions gt pred c1 = count_correct_predictions gt pred c2) /\
  count_correct_predictions gt pred (lower c1) = count_correct_predictions gt pred c1.
Proof.
  assert (Hgen : forall a b, lower a = lower b ->
            count_correct_predictions gt pred a = count_correct_predictions gt pred b).
  { intros a b H. rewrite !count_correct_predictions_spec. unfold Spec.match_category.
    rewrite !(filter_category_lower a b _ H). reflexivity. }
  split; [apply Hgen |]. apply Hgen, lower_idempotent.
Qed.

Lemma category_case_insensitive_witness :
  count_correct_predictions [bx "button" 0 0 100 50] [bx "Button" 5 5 95 45] "BUTTON"
  = count_correct_predictions [bx "button" 0 0 100 50] [bx "Button" 5 5 95 45] "button".
Proof.
  apply (proj1 (category_case_insensitive _ _ "BUTTON" "button")). reflexivity.
Defined.






(** ** More boxes at the end *)

Lemma greedy_le (gts preds : list Box) (consumed : gset nat) (c : nat) :
  Spec.greedy gts preds consumed c <= c + length preds.
Proof.
  revert consumed c. induction preds as [| pred rest IH]; intros consumed c; simpl.
  - lia.
  - destruct (Spec.first_fit gts consumed pred) as [i |].
    + specialize (IH ({[i]} ∪ consumed) (c + 1)). lia.
    + specialize (IH consumed c). lia.
Qed.

Lemma greedy_app_le (gts preds more : list Box) (consumed : gset nat) (c : nat) :
  Spec.greedy gts (preds ++ more) consumed c
  <= Spec.greedy gts preds consumed c + length more.
Proof.
  revert consumed c. induction preds as [| pred rest IH]; intros consumed c; simpl.
  - apply greedy_le.
  - destruct (Spec.first_fit gts consumed pred); apply IH.
Qed.

Lemma filter_category_app (category : string) (l1 l2 : list Box) :
  Spec.filter_category category (l1 ++ l2)
  = Spec.filter_category category l1 ++ Spec.filter_category category l2.
Proof. apply filter_app. Qed.

(** X12: predicted boxes appended to the predictions raise the count by
    at most the number of appended boxes of the category, and never lower
    it. *)
Theorem append_predictions_bound (gt pred more : list Box) (category : string) :
  exists g p c c',
    count_correct_predictions gt pred category = Ok (g, p, c) /\
    count_correct_predictions gt (pred ++ more) category
      = Ok (g, p + length (Spec.filter_category category more), c') /\
    c <= c' /\ c' <= c + length (Spec.filter_category category more).
Proof.
  rewrite !count_correct_predictions_spec. unfold Spec.match_category.
  rewrite filter_category_app, length_app.
  eexists _, _, _, _. split; [reflexivity |]. split; [reflexivity |].
  split; [apply greedy_app_ge | apply greedy_app_le].
Qed.

Lemma find_ext_in {A : Type} (f g : A -> bool) (l : list A) :
  (forall x, In x l -> f x = g x) -> List.find f l = List.find g l.
Proof.
  induction l as [| x l IH]; intros H; simpl; [reflexivity |].
  rewrite (H x) by (left; reflexivity).
  destruct (g x); [reflexivity |]. apply IH. intros y Hy. apply H. right. exact Hy.
Qed.

Lemma find_snoc {A : Type} (f : A -> bool) (l : list A) (x : A) :
  List.find f (l ++ [x])
  = match List.find f l with
    | Some y => Some y
    | None => if f x then Some x else None
    end.
Proof.
  induction l as [| y l IH]; simpl; [reflexivity |].
  destruct (f y); [reflexivity | exact IH].
Qed.

(** The scan over the ground truth boxes with one more box at the end. *)
Lemma first_fit_snoc (gts : list Box) (g : Box) (consumed consumed' : gset nat)
    (pred : Box) :
  (forall i, i < length gts -> (i ∈ consumed' <-> i ∈ consumed)) ->
  Spec.first_fit (gts ++ [g]) consumed' pred
  = match Spec.first_fit gts consumed pred with
    | Some i => Some i
    | None => if Spec.qualifies (gts ++ [g]) consumed' pred (length gts)
              then Some (length gts) else None
    end.
Proof.
  intros Hsame. unfold Spec.first_fit.
  rewrite length_app. change (length [g]) with 1.
  rewrite seq_app. change (seq (0 + length gts) 1) with [length gts].
  rewrite find_snoc.
  rewrite (find_ext_in (Spec.qualifies (gts ++ [g]) consumed' pred)
                       (Spec.qualifies gts consumed pred)); [reflexivity |].
  intros i Hi. apply in_seq in Hi. unfold Spec.qualifies.
  rewrite lookup_app_l by lia. f_equal.
  apply bool_decide_ext. rewrite (Hsame i) by lia. reflexivity.
Qed.

(** The two runs, without and with the added ground truth box, consume
    the same old boxes; the longer run is ahead by one exactly when it
    has consumed the added box. *)
Lemma greedy_snoc (gts : list Box) (g : Box) (preds : list Box) :
  forall (consumed consumed' : gset nat) (c c' : nat),
  (forall i, i < length gts -> (i ∈ consumed' <-> i ∈ consumed)) ->
  ((length gts ∉ consumed') /\ c' = c \/ (length gts ∈ consumed') /\ c' = c + 1) ->
  Spec.greedy gts preds consumed c <= Spec.greedy (gts ++ [g]) preds consumed' c' /\
  Spec.greedy (gts ++ [g]) preds consumed' c' <= Spec.greedy gts preds consumed c + 1.
Proof.
  induction preds as [| pred rest IH]; intros consumed consumed' c c' Hsame Hahead; simpl.
  - lia.
  - rewrite (first_fit_snoc gts g consumed consumed' pred Hsame).
    destruct (Spec.first_fit gts consumed pred) as [i |] eqn:Hfit.
    + apply first_fit_Some in Hfit as [Hlt _]. apply IH.
      * intros k Hk. rewrite !elem_of_union, !elem_of_singleton, (Hsame k Hk).
        reflexivity.
      * rewrite !elem_of_union, !elem_of_singleton.
        destruct Hahead as [[Hn ->] | [Hn ->]]; [left | right];
          (split; [| lia]); [intros [? | ?]; [lia | contradiction] | right; exact Hn].
    + destruct (Spec.qualifies (gts ++ [g]) consumed' pred (length gts)) eqn:Hq.
      * apply qualifies_true in Hq as [Hnew _]. apply IH.
        -- intros k Hk. rewrite elem_of_union, elem_of_singleton, <- (Hsame k Hk).
           split; [intros [? | ?]; [lia | assumption] | intros ?; right; assumption].
        -- right. split; [apply elem_of_union; left; apply elem_of_singleton; reflexivity |].
           destruct Hahead as [[_ ->] | [Hn _]]; [reflexivity | contradiction].
      * apply IH; assumption.
Qed.

(** X13: a ground truth box appended to the ground truth never lowers
    the count and raises it by at most one; the prediction count does not
    change, and the ground truth count grows by one exactly when the tag of
    the box is the category. *)
Theorem append_ground_truth (gt pred : list Box) (box : Box) (category : string) :
  exists g p c c',
    count_correct_predictions gt pred category = Ok (g, p, c) /\
    count_correct_predictions (gt ++ [box]) pred category
      = Ok ((if tag_matches category box then g + 1 else g), p, c') /\
    c <= c' /\ c' <= c + 1.
Proof.
  rewrite !count_correct_predictions_spec. unfold Spec.match_category.
  rewrite filter_category_snoc.
  set (gts := Spec.filter_category category gt).
  set (preds := Spec.filter_category category pred).
  destruct (tag_matches category box).
  - exists (length gts), (length preds), (Spec.greedy gts preds ∅ 0),
           (Spec.greedy (gts ++ [box]) preds ∅ 0).
    split; [reflexivity |]. split; [rewrite length_app; reflexivity |].
    apply greedy_snoc.
    + intros i _. reflexivity.
    + left. split; [apply not_elem_of_empty | reflexivity].
  - rewrite app_nil_r.
    exists (length gts), (length preds), (Spec.greedy gts preds ∅ 0),
           (Spec.greedy gts preds ∅ 0).
    repeat split; lia.
Qed.

End MatcherMore.

(** * Further properties of the aggregation and of the scores *)

Section AggregatorMore.

(** The counts of one file for one category: the matches are at most the
    boxes on either side. *)
Lemma match_category_bounds (gt pred : list Box) (category : string) :
  (Spec.match_category gt pred category).2 <= (Spec.match_category gt pred category).1.1 /\
  (Spec.match_category gt pred category).2 <= (Spec.match_category gt pred category).1.2.
Proof.
  unfold Spec.match_category. simpl.
  set (gts := Spec.filter_category category gt).
  set (preds := Spec.filter_category category pred).
  split; [| apply (greedy_le gts preds ∅ 0)].
  destruct (match_loop_trace gts preds (mkMatchState 0 []))
    as (hits & st & _ & Hl & _ & Hused & Hcount & Hnd & Hrange).
  destruct (match_loop_greedy gts preds (mkMatchState 0 [])) as (st' & Hl' & Hg).
  rewrite Hl in Hl'. injection Hl' as <-. simpl in *.
  rewrite <- Hg, Hcount, <- Hused.
  apply NoDup_bounded_length; [apply Hnd, NoDup_nil_2 | apply Hrange, Forall_nil_2].
Qed.

Lemma file_counts_bounds (category : string) (file : FilePair) :
  (Spec.file_counts category file).2 <= (Spec.file_counts category file).1.1 /\
  (Spec.file_counts category file).2 <= (Spec.file_counts category file).1.2.
Proof.
  unfold Spec.file_counts. destruct (prediction_data file).
  - apply match_category_bounds.
  - simpl. lia.
Qed.

Lemma sum_counts_bounds (category : string) (files : list FilePair) :
  correct_total (Spec.sum_counts category files)
    <= ground_truth_total (Spec.sum_counts category files) /\
  correct_total (Spec.sum_counts category files)
    <= predicted_total (Spec.sum_counts category files).
Proof.
  unfold Spec.sum_counts. simpl.
  induction files as [| file rest IH]; simpl; [lia |].
  destruct (file_counts_bounds category file). lia.
Qed.


Lemma process_files_app (files1 files2 : list FilePair) (results : gmap string Totals) :
  process_files (files1 ++ files2) results
  = process_files files1 results ≫= process_files files2.
Proof.
  revert results. induction files1 as [| [gt [pred |]] rest IH]; intros results;
    cbn [app process_files prediction_data ground_truth_data].
  - reflexivity.
  - destruct (count_file gt pred element_types results) as [results1 | e];
      [apply IH | reflexivity].
  - apply IH.
Qed.


(** X18: a ground truth file without a prediction file changes neither
    the totals nor the report, wherever it stands among the files. *)
Theorem missing_prediction_skipped (before after : list FilePair) (file : FilePair)
    (results : gmap string Totals) :
  prediction_data file = None ->
  process_files (before ++ file :: after) results
  = process_files (before ++ after) results /\
  main (before ++ file :: after) = main (before ++ after).
Proof.
  intros Hnone.
  assert (Hgen : forall r, process_files (before ++ file :: after) r
                           = process_files (before ++ after) r).
  { intros r. rewrite !process_files_app.
    destruct (process_files before r) as [r1 | e]; [| reflexivity].
    simpl. rewrite Hnone. reflexivity. }
  split; [apply Hgen |]. unfold main. rewrite Hgen. reflexivity.
Qed.

Lemma missing_prediction_skipped_witness :
  let f1 := mkFilePair [bx "button" 0 0 100 50] (Some [bx "Button" 5 5 95 45]) in
  let f2 := mkFilePair [bx "button" 0 0 10 10] None in
  main ([f1] ++ f2 :: []) = main ([f1] ++ []).
Proof.
  intros f1 f2.
  apply (proj2 (missing_prediction_skipped [f1] [] f2 init_results eq_refl)).
Defined.

Lemma length_filter_cons {A : Type} (P : A -> Prop) `{!forall x, Decision (P x)}
    (x : A) (l : list A) :
  length (filter P (x :: l)) = (if decide (P x) then 1 else 0) + length (filter P l).
Proof. rewrite filter_cons. destruct (decide (P x)); reflexivity. Qed.

(** Each box falls in the category of its tag and in no other. *)
Lemma category_of_box (box : Box) :
  (if decide (Spec.same_category "button" box) then 1 else 0)
  + (if decide (Spec.same_category "input" box) then 1 else 0)
  + (if decide (Spec.same_category "radio" box) then 1 else 0)
  + (if decide (Spec.same_category "dropdown" box) then 1 else 0)
  = if decide (recognized box) then 1 else 0.
Proof.
  destruct (decide (Spec.same_category "button" box)) as [B1 | B1];
    destruct (decide (Spec.same_category "input" box)) as [B2 | B2];
    destruct (decide (Spec.same_category "radio" box)) as [B3 | B3];
    destruct (decide (Spec.same_category "dropdown" box)) as [B4 | B4];
    destruct (decide (recognized box)) as [R | R];
    try reflexivity; exfalso;
    unfold Spec.same_category, recognized, element_types in *;
    change (lower "button") with "button" in *;
    change (lower "input") with "input" in *;
    change (lower "radio") with "radio" in *;
    change (lower "dropdown") with "dropdown" in *;
    try congruence;
    try (apply R; first [rewrite B1 | rewrite B2 | rewrite B3 | rewrite B4];
         repeat constructor);
    repeat (apply elem_of_cons in R as [R | R]; [contradiction |]);
    apply not_elem_of_nil in R; exact R.
Qed.

Lemma categories_partition (boxes : list Box) :
  length (Spec.filter_category "button" boxes)
  + length (Spec.filter_category "input" boxes)
  + length (Spec.filter_category "radio" boxes)
  + length (Spec.filter_category "dropdown" boxes)
  = length (filter recognized boxes).
Proof.
  unfold Spec.filter_category.
  induction boxes as [| box rest IH]; [reflexivity |].
  rewrite !length_filter_cons, <- IH, <- category_of_box. lia.
Qed.

Lemma aggregate_ground_truth_sum (files : list FilePair) :
  sum_list_with (fun e => ground_truth_total (entry_totals e)) (Spec.aggregate files)
  = length (filter recognized (processed_ground_truth files)).
Proof.
  unfold Spec.aggregate, element_types. simpl. rewrite Nat.add_0_r, !Nat.add_assoc.
  induction files as [| [gt [pred |]] rest IH]; simpl.
  - reflexivity.
  - rewrite filter_app, length_app, <- IH, <- categories_partition.
    unfold Spec.file_counts, Spec.match_category. simpl. lia.
  - exact IH.
Qed.

Lemma aggregate_predicted_sum (files : list FilePair) :
  sum_list_with (fun e => predicted_total (entry_totals e)) (Spec.aggregate files)
  = length (filter recognized (processed_predictions files)).
Proof.
  unfold Spec.aggregate, element_types. simpl. rewrite Nat.add_0_r, !Nat.add_assoc.
  induction files as [| [gt [pred |]] rest IH]; simpl.
  - reflexivity.
  - rewrite filter_app, length_app, <- IH, <- categories_partition.
    unfold Spec.file_counts, Spec.match_category. simpl. lia.
  - exact IH.
Qed.

(** X19: over the four categories of the report, every box of a processed
    file whose tag is, in lower case, one of the element types is counted
    exactly once, and a box with any other tag is counted nowhere: the
    ground truth totals add up to the number of recognized ground truth
    boxes, and the predicted totals to the number of recognized predicted
    boxes. *)
Theorem recognized_boxes_counted_once (files : list FilePair) :
  exists entries,
    main files = Ok entries /\
    sum_list_with (fun e => ground_truth_total (entry_totals e)) entries
    = length (filter recognized (processed_ground_truth files)) /\
    sum_list_with (fun e => predicted_total (entry_totals e)) entries
    = length (filter recognized (processed_predictions files)).
Proof.
  exists (Spec.aggregate files). split; [apply main_spec |].
  split; [apply aggregate_ground_truth_sum | apply aggregate_predicted_sum].
Qed.

End AggregatorMore.

Section ScoresMore.
Local Open Scope Q_scope.

Lemma Q_of_nat_nonneg (n : nat) : 0 <= Q_of_nat n.
Proof. unfold Q_of_nat, Qle. simpl. lia. Qed.

Lemma Q_of_nat_le (m n : nat) : (m <= n)%nat -> Q_of_nat m <= Q_of_nat n.
Proof. intros H. unfold Q_of_nat, Qle. simpl. lia. Qed.

Lemma Q_of_nat_lt_0 (n : nat) : (0 <? n)%nat = true -> 0 < Q_of_nat n.
Proof. intros H. apply Nat.ltb_lt in H. unfold Q_of_nat, Qlt. simpl. lia. Qed.

Lemma Q_of_nat_add (m n : nat) : Q_of_nat (m + n) == Q_of_nat m + Q_of_nat n.
Proof. unfold Q_of_nat. rewrite Nat2Z.inj_add, inject_Z_plus. reflexivity. Qed.

(** A guarded quotient of a count by a larger count is between 0 and 1. *)
Lemma guarded_quotient_range (c n : nat) :
  (c <= n)%nat ->
  0 <= (if (0 <? n)%nat then Q_of_nat c / Q_of_nat n else 0) <= 1.
Proof.
  intros Hle. destruct (0 <? n)%nat eqn:E; [| lra].
  pose proof (Q_of_nat_lt_0 n E). pose proof (Q_of_nat_nonneg c).
  pose proof (Q_of_nat_le c n Hle).
  split; [apply Qle_shift_div_l | apply Qle_shift_div_r]; lra.
Qed.

Lemma f1_range (p r : Q) :
  0 <= p <= 1 -> 0 <= r <= 1 ->
  0 <= (if Qlt_bool 0 (p + r) then 2 * p * r / (p + r) else 0) <= 1.
Proof.
  intros Hp Hr. destruct (Qlt_bool 0 (p + r)) eqn:E; [| lra].
  apply Qlt_bool_iff in E.
  split; [apply Qle_shift_div_l | apply Qle_shift_div_r]; nra.
Qed.

Lemma scores_of_range (t : Totals) :
  (correct_total t <= ground_truth_total t)%nat ->
  (correct_total t <= predicted_total t)%nat ->
  0 <= precision (Spec.scores_of t) <= 1 /\
  0 <= recall (Spec.scores_of t) <= 1 /\
  0 <= f1_score (Spec.scores_of t) <= 1.
Proof.
  intros Hg Hp. simpl.
  pose proof (guarded_quotient_range _ _ Hp) as H1.
  pose proof (guarded_quotient_range _ _ Hg) as H2.
  split; [exact H1 |]. split; [exact H2 |].
  apply f1_range; assumption.
Qed.

(** X15: every precision, recall and F1 that [main] reports lies between
    0 and 1. *)
Theorem scores_in_unit_interval (files : list FilePair) :
  exists entries,
    main files = Ok entries /\
    forall e, e ∈ entries ->
      0 <= precision (entry_scores e) <= 1 /\
      0 <= recall (entry_scores e) <= 1 /\
      0 <= f1_score (entry_scores e) <= 1.
Proof.
  exists (Spec.aggregate files). split; [apply main_spec |].
  intros e He. unfold Spec.aggregate in He.
  apply list_elem_of_In, in_map_iff in He as (category & <- & _).
  cbn [entry_scores].
  destruct (sum_counts_bounds category files) as [Hg Hp].
  apply scores_of_range; assumption.
Qed.



(** ** Ground truth evaluated against itself *)





End ScoresMore.

(** * Properties of [main] on two directories *)

Section Directories.

Lemma substring_all (s : string) : substring 0 (String.length s) s = s.
Proof. induction s as [| c s IH]; simpl; [reflexivity | rewrite IH; reflexivity]. Qed.

Lemma substring_append_r (pre suf : string) :
  substring (String.length pre) (String.length suf) (pre +:+ suf) = suf.
Proof. induction pre as [| c pre IH]; simpl; [apply substring_all | exact IH]. Qed.

Lemma substring_split (s : string) (n m : nat) :
  n + m = String.length s -> s = substring 0 n s +:+ substring n m s.
Proof.
  revert n. induction s as [| c s IH]; intros n H; simpl in H.
  - destruct n; destruct m; try discriminate. reflexivity.
  - destruct n as [| n]; simpl.
    + destruct m as [| m]; [discriminate |]. injection H as H.
      simpl. rewrite H, substring_all. reflexivity.
    + change (String c s = String c (substring 0 n s +:+ substring n m s)).
      f_equal. apply IH. lia.
Qed.

Lemma length_append (s t : string) :
  String.length (s +:+ t) = String.length s + String.length t.
Proof. induction s as [| c s IH]; simpl; [reflexivity | rewrite IH; reflexivity]. Qed.

(** [endswith] is true exactly on the strings that end with the suffix. *)
Lemma endswith_iff (s suffix : string) :
  endswith s suffix = true <-> exists stem, s = stem +:+ suffix.
Proof.
  unfold endswith. rewrite andb_true_iff, Nat.leb_le, String.eqb_eq. split.
  - intros [Hle Hsub].
    exists (substring 0 (String.length s - String.length suffix) s).
    transitivity (substring 0 (String.length s - String.length suffix) s
                  +:+ substring (String.length s - String.length suffix)
                                (String.length suffix) s).
    + apply substring_split. lia.
    + rewrite Hsub. reflexivity.
  - intros [stem ->]. rewrite length_append. split; [lia |].
    replace (String.length stem + String.length suffix - String.length suffix)
      with (String.length stem) by lia.
    apply substring_append_r.
Qed.

Lemma select_json_files_filter (gt_dir json_files : list (string * list Box)) :
  select_json_files gt_dir json_files
  = json_files ++ filter (fun file => endswith file.1 ".json" = true) gt_dir.
Proof.
  revert json_files. induction gt_dir as [| file rest IH]; intros json_files; simpl.
  - rewrite filter_nil, app_nil_r. reflexivity.
  - rewrite filter_cons. destruct (endswith file.1 ".json") eqn:E.
    + rewrite decide_True by reflexivity. rewrite IH, <- app_assoc. reflexivity.
    + rewrite decide_False by discriminate. apply IH.
Qed.

Lemma evaluate_files_process (json_files : list (string * list Box))
    (pred_dir : gmap string (list Box)) :
  forall (results : gmap string Totals) (names : list string),
  evaluate_files json_files pred_dir results names
  = results' ← process_files (pair_files json_files pred_dir) results;
    Ok (results',
        names ++ filter (fun name => pred_dir !! name = None) (map fst json_files)).
Proof.
  induction json_files as [| [filename gt] rest IH]; intros results names;
    cbn [evaluate_files pair_files map process_files prediction_data ground_truth_data
         fst snd].
  - rewrite filter_nil, app_nil_r. reflexivity.
  - rewrite filter_cons. fold (pair_files rest pred_dir).
    destruct (pred_dir !! filename) as [pred |] eqn:E.
    + rewrite decide_False by discriminate.
      destruct (count_file gt pred element_types results) as [results1 | e];
        [| reflexivity].
      apply IH.
    + rewrite decide_True by reflexivity. rewrite IH, <- app_assoc. reflexivity.
Qed.

(** The run of [main_dirs], in terms of [main] on the pairs of files. *)
Lemma main_dirs_spec (gt_dir : list (string * list Box))
    (pred_dir : gmap string (list Box)) :
  let json_files := filter (fun file => endswith file.1 ".json" = true) gt_dir in
  main_dirs gt_dir pred_dir
  = Ok (mkRun (length json_files)
              (filter (fun name => pred_dir !! name = None) (map fst json_files))
              (Spec.aggregate (pair_files json_files pred_dir))).
Proof.
  intros json_files. unfold main_dirs.
  rewrite select_json_files_filter. cbn [app]. fold json_files.
  rewrite evaluate_files_process.
  pose proof (main_spec (pair_files json_files pred_dir)) as Hmain. unfold main in Hmain.
  destruct (process_files (pair_files json_files pred_dir) init_results)
    as [results | e]; [| discriminate].
  cbn [mbind result_bind app] in Hmain |- *. rewrite Hmain. reflexivity.
Qed.

Lemma json_names_filter (gt_dir : list (string * list Box)) :
  map fst (filter (fun file => endswith file.1 ".json" = true) gt_dir)
  = json_names gt_dir.
Proof.
  unfold json_names. induction gt_dir as [| file rest IH]; [reflexivity |].
  cbn [map]. rewrite !filter_cons.
  destruct (decide (endswith file.1 ".json" = true)); cbn [map]; rewrite IH; reflexivity.
Qed.

Lemma pair_files_length (json_files : list (string * list Box))
    (pred_dir : gmap string (list Box)) :
  length (pair_files json_files pred_dir) = length json_files.
Proof. unfold pair_files. apply length_map. Qed.



(** X21: a file of the ground truth directory whose name does not end in
    [.json] changes nothing in what [main_dirs] returns. *)
Theorem other_files_ignored (before after : list (string * list Box))
    (name : string) (data : list Box) (pred_dir : gmap string (list Box)) :
  ~ (exists stem, name = stem +:+ ".json") ->
  main_dirs (before ++ (name, data) :: after) pred_dir
  = main_dirs (before ++ after) pred_dir.
Proof.
  intros Hname. rewrite !main_dirs_spec. cbv zeta.
  rewrite !filter_app, filter_cons. rewrite decide_False; [reflexivity |].
  simpl. intros H. apply Hname, endswith_iff, H.
Qed.

Lemma other_files_ignored_witness :
  let a := ("a.json", [bx "button" 0 0 100 50]) in
  let pred_dir : gmap string (list Box) := {[ "a.json" := [bx "Button" 5 5 95 45] ]} in
  main_dirs ([a] ++ ("notes.json.txt", [bx "button" 0 0 1 1]) :: []) pred_dir
  = main_dirs ([a] ++ []) pred_dir.
Proof.
  intros a pred_dir. apply other_files_ignored.
  intros H. apply endswith_iff in H. discriminate.
Defined.

Lemma pair_files_ext (json_files : list (string * list Box))
    (pred_dir pred_dir' : gmap string (list Box)) :
  Forall (fun name => pred_dir !! name = pred_dir' !! name) (map fst json_files) ->
  pair_files json_files pred_dir = pair_files json_files pred_dir' /\
  filter (fun name => pred_dir !! name = None) (map fst json_files)
  = filter (fun name => pred_dir' !! name = None) (map fst json_files).
Proof.
  induction json_files as [| [name gt] rest IH]; intros H; [split; reflexivity |].
  cbn [map fst] in H. apply Forall_cons in H as [Hname Hrest].
  destruct (IH Hrest) as [IH1 IH2].
  unfold pair_files in *. cbn [map fst snd]. rewrite !filter_cons, Hname, IH1, IH2.
  split; [reflexivity |].
  destruct (decide (pred_dir' !! name = None)); reflexivity.
Qed.

(** X22: only the prediction files with the name of a [.json] ground
    truth file are looked at: two prediction directories that agree on
    those names give the same run. *)
Theorem unlisted_predictions_ignored (gt_dir : list (string * list Box))
    (pred_dir pred_dir' : gmap string (list Box)) :
  Forall (fun name => pred_dir !! name = pred_dir' !! name) (json_names gt_dir) ->
  main_dirs gt_dir pred_dir = main_dirs gt_dir pred_dir'.
Proof.
  intros H. rewrite !main_dirs_spec. cbv zeta.
  rewrite <- json_names_filter in H.
  destruct (pair_files_ext _ _ _ H) as [-> ->]. reflexivity.
Qed.

Lemma unlisted_predictions_ignored_witness :
  let gt_dir := [("a.json", [bx "button" 0 0 100 50])] in
  let pred_dir : gmap string (list Box) := {[ "a.json" := [bx "Button" 5 5 95 45] ]} in
  main_dirs gt_dir pred_dir
  = main_dirs gt_dir (<["b.json" := [bx "button" 0 0 1 1]]> pred_dir).
Proof.
  intros gt_dir pred_dir. apply unlisted_predictions_ignored.
  apply Forall_cons. split; [reflexivity | apply Forall_nil_2].
Defined.

Lemma aggregate_Permutation (files files' : list FilePair) :
  files ≡ₚ files' -> Spec.aggregate files = Spec.aggregate files'.
Proof.
  intros H. unfold Spec.aggregate. apply map_ext. intros category.
  rewrite (sum_counts_Permutation category files files' H). reflexivity.
Qed.

(** X28: the order in which [os.listdir] lists the ground truth directory
    does not matter: for two listings of the same files, [main_dirs]
    finds as many files and gives the same report, and its warnings name
    the same files. *)
Theorem listing_order_irrelevant (gt_dir gt_dir' : list (string * list Box))
    (pred_dir : gmap string (list Box)) :
  gt_dir ≡ₚ gt_dir' ->
  exists run run',
    main_dirs gt_dir pred_dir = Ok run /\
    main_dirs gt_dir' pred_dir = Ok run' /\
    found run = found run' /\
    report_entries run = report_entries run' /\
    warnings run ≡ₚ warnings run'.
Proof.
  intros Hperm. eexists _, _.
  split; [apply main_dirs_spec |]. split; [apply main_dirs_spec |].
  cbn [found warnings report_entries].
  assert (Hjson : filter (fun file : string * list Box => endswith file.1 ".json" = true) gt_dir
                  ≡ₚ filter (fun file => endswith file.1 ".json" = true) gt_dir')
    by (rewrite Hperm; reflexivity).
  split; [rewrite Hjson; reflexivity |]. split.
  - apply aggregate_Permutation. unfold pair_files.
    apply Permutation_map, Hjson.
  - rewrite Hjson. reflexivity.
Qed.

Lemma listing_order_irrelevant_witness :
  let a := ("a.json", [bx "button" 0 0 100 50]) in
  let b := ("b.json", [bx "input" 0 0 10 10]) in
  let pred_dir : gmap string (list Box) := {[ "a.json" := [bx "Button" 5 5 95 45] ]} in
  exists run run',
    main_dirs [a; b] pred_dir = Ok run /\
    main_dirs [b; a] pred_dir = Ok run' /\
    found run = found run' /\
    report_entries run = report_entries run' /\
    warnings run ≡ₚ warnings run'.
Proof.
  intros a b pred_dir. apply listing_order_irrelevant. apply perm_swap.
Defined.

End Directories.

(** * Properties of the extraction of the JSON text in [app.py] *)

Section AppProperties.
Import App.

Example split_examples :
  App.split "```" "ab```" = ["ab"; ""] /\
  App.split "```" "````" = [""; "`"] /\
  App.split "```" "" = [""] /\
  App.split "," "a,b,,c" = ["a"; "b"; ""; "c"] /\
  App.strip (String "010" " [1, 2] ") = "[1, 2]" /\
  App.extract_json_text "Here: ```json[1]``` done" = Some "[1]".
Proof. repeat split. Qed.

Lemma append_cons (c : ascii) (s t : string) : String c s +:+ t = String c (s +:+ t).
Proof. reflexivity. Qed.

Lemma append_nil_l (t : string) : "" +:+ t = t.
Proof. reflexivity. Qed.

Lemma append_nil_r (s : string) : s +:+ "" = s.
Proof.
  induction s as [| c s IH]; [reflexivity |]. rewrite append_cons, IH. reflexivity.
Qed.

Lemma append_assoc (s t u : string) : (s +:+ t) +:+ u = s +:+ t +:+ u.
Proof.
  induction s as [| c s IH]; [reflexivity |]. rewrite !append_cons, IH. reflexivity.
Qed.

Lemma prefix_append (sep s : string) : String.prefix sep (sep +:+ s) = true.
Proof.
  induction sep as [| c sep IH]; [destruct s; reflexivity |]. rewrite append_cons. simpl.
  destruct (ascii_dec c c); [exact IH | contradiction].
Qed.

Lemma prefix_nil_r (sep : string) : sep <> "" -> String.prefix sep "" = false.
Proof. destruct sep; [contradiction | reflexivity]. Qed.

Lemma split_from_cons (sep s : string) (skip : nat) (piece : string) :
  exists first others, split_from sep s skip piece = first :: others.
Proof.
  revert skip piece. induction s as [| c s IH]; intros skip piece; cbn [split_from].
  - eauto.
  - destruct skip as [| skip]; [| apply IH].
    destruct (String.prefix sep (String c s)); [eauto | apply IH].
Qed.

(** A separator that occurs gives at least two pieces. *)
Lemma contains_split_from (sep s piece : string) :
  sep <> "" -> contains sep s = true ->
  exists first second others, split_from sep s 0 piece = first :: second :: others.
Proof.
  intros Hsep. revert piece.
  induction s as [| c s IH]; intros piece; cbn [contains split_from].
  - rewrite prefix_nil_r by assumption. discriminate.
  - destruct (String.prefix sep (String c s)) eqn:E.
    + intros _.
      destruct (split_from_cons sep s (String.length sep - 1) "")
        as (first & others & ->).
      eauto.
    + rewrite orb_false_l. apply IH.
Qed.

Lemma extract_json_text_total (ai_response : string) :
  exists json_text, extract_json_text ai_response = Some json_text.
Proof.
  unfold extract_json_text, split, item.
  destruct (contains fence_json ai_response) eqn:E1.
  - destruct (contains_split_from fence_json ai_response "") as (a & chunk & l & ->);
      [discriminate | exact E1 |].
    cbn [lookup list_lookup mbind option_bind].
    destruct (split_from_cons fence chunk 0 "") as (first & others & ->). eauto.
  - destruct (contains fence ai_response) eqn:E2; [| eauto].
    destruct (contains_split_from fence ai_response "") as (a & chunk & l & ->);
      [discriminate | exact E2 |].
    eauto.
Qed.

Section Predict.
Variable J : Type.
Variable json_loads : string -> option J.
Variable no_boxes : J.

(** X23: once the API has answered, [predict] returns boxes and never
    the error form: no indexing of the pieces of [split] is out of range.
    An absent or empty answer gives the empty list. *)
Theorem predict_no_error_after_api (content : option string) :
  (exists boxes, predict J json_loads no_boxes (inr content) = Boxes boxes) /\
  predict J json_loads no_boxes (inr None) = Boxes no_boxes /\
  predict J json_loads no_boxes (inr (Some "")) = Boxes no_boxes.
Proof.
  split; [| split; reflexivity].
  destruct content as [[| c text] |]; [eexists; reflexivity | | eexists; reflexivity].
  unfold predict, parse_boxes.
  destruct (extract_json_text_total (String c text)) as (json_text & ->).
  cbn [mbind option_bind].
  destruct (json_loads (strip json_text)); eexists; reflexivity.
Qed.

End Predict.

(** ** Fenced and unfenced answers *)

Lemma prefix_backquote (sep' s : string) (c : ascii) :
  Ascii.eqb c "`" = false -> String.prefix (String "`" sep') (String c s) = false.
Proof.
  intros H. cbn [String.prefix].
  destruct (ascii_dec "`" c) as [<- | _]; [discriminate | reflexivity].
Qed.

(** A text without backquote before the rest goes to the current piece. *)
Lemma split_from_no_backquote (sep' before s piece : string) :
  no_backquote before = true ->
  split_from (String "`" sep') (before +:+ s) 0 piece
  = split_from (String "`" sep') s 0 (piece +:+ before).
Proof.
  revert piece. induction before as [| c before IH]; intros piece H.
  - rewrite append_nil_l, append_nil_r. reflexivity.
  - cbn [no_backquote] in H. apply andb_true_iff in H as [Hc Hrest].
    apply negb_true_iff in Hc.
    rewrite append_cons. cbn [split_from].
    rewrite (prefix_backquote _ _ _ Hc), (IH _ Hrest), append_assoc. reflexivity.
Qed.

Lemma split_from_skip (sep passed s piece : string) :
  split_from sep (passed +:+ s) (String.length passed) piece = split_from sep s 0 piece.
Proof.
  induction passed as [| c passed IH]; [reflexivity |].
  rewrite append_cons. cbn [split_from String.length]. exact IH.
Qed.

(** At a separator the piece ends and an empty one starts after it. *)
Lemma split_from_separator (c : ascii) (sep' s piece : string) :
  split_from (String c sep') (String c sep' +:+ s) 0 piece
  = piece :: split_from (String c sep') s 0 "".
Proof.
  pose proof (prefix_append (String c sep') s) as Hp.
  rewrite append_cons in Hp |- *. cbn [split_from]. rewrite Hp.
  cbn [String.length]. rewrite Nat.sub_1_r. cbn [Nat.pred].
  rewrite split_from_skip. reflexivity.
Qed.

Lemma split_from_no_separator (sep s piece : string) :
  contains sep s = false -> split_from sep s 0 piece = [piece +:+ s].
Proof.
  revert piece. induction s as [| c s IH]; intros piece; cbn [contains split_from].
  - rewrite append_nil_r. reflexivity.
  - intros H. apply orb_false_iff in H as [Hp Hc].
    rewrite Hp, (IH _ Hc), append_assoc. reflexivity.
Qed.

Lemma split_no_separator (sep s : string) :
  contains sep s = false -> split sep s = [s].
Proof.
  intros H. unfold split. rewrite (split_from_no_separator _ _ _ H), append_nil_l.
  reflexivity.
Qed.

Lemma contains_append (sep before s : string) :
  contains sep (before +:+ sep +:+ s) = true.
Proof.
  induction before as [| c before IH].
  - rewrite append_nil_l. destruct (sep +:+ s) eqn:E; cbn [contains];
      rewrite <- E, prefix_append; reflexivity.
  - rewrite append_cons. cbn [contains]. rewrite IH. apply orb_true_r.
Qed.

Lemma prefix_shorter (a b s : string) :
  String.prefix (a +:+ b) s = true -> String.prefix a s = true.
Proof.
  revert s. induction a as [| c a IH]; intros s; [destruct s; reflexivity |].
  rewrite append_cons. destruct s as [| d s]; cbn [String.prefix]; [discriminate |].
  destruct (ascii_dec c d); [apply IH | discriminate].
Qed.

Lemma contains_shorter (a b s : string) :
  contains (a +:+ b) s = true -> contains a s = true.
Proof.
  induction s as [| c s IH]; cbn [contains]; intros H;
    apply orb_true_iff in H as [H | H]; apply orb_true_iff.
  - left. eapply prefix_shorter, H.
  - discriminate.
  - left. eapply prefix_shorter, H.
  - right. apply IH, H.
Qed.

(** The pieces of a text with a first separator after a part without
    backquote. *)
Lemma split_at_first (sep' before rest : string) :
  no_backquote before = true ->
  split (String "`" sep') (before +:+ String "`" sep' +:+ rest)
  = before :: split (String "`" sep') rest.
Proof.
  intros H. unfold split.
  rewrite (split_from_no_backquote _ _ _ _ H), append_nil_l, split_from_separator.
  reflexivity.
Qed.

(** The first piece of a text that starts with a part without backquote
    and then ends or goes on with a fence. *)
Lemma split_fence_body (body tail : string) :
  no_backquote body = true ->
  tail = "" \/ (exists after, tail = fence +:+ after) ->
  exists others, split fence (body +:+ tail) = body :: others.
Proof.
  intros Hbody Htail. destruct Htail as [-> | [after ->]].
  - exists []. unfold split, fence.
    rewrite (split_from_no_backquote _ _ _ _ Hbody), append_nil_l. reflexivity.
  - exists (split fence after). apply (split_at_first "``" body after Hbody).
Qed.

(** X24: an answer with one [```json] fence: whatever stands before it,
    without backquote, is dropped, and the text handed on is the text
    between the fence and the closing fence, or the end. *)
Theorem extract_json_fence (before body tail : string) :
  no_backquote before = true ->
  no_backquote body = true ->
  tail = "" \/ (exists after, tail = fence +:+ after) ->
  contains fence_json (body +:+ tail) = false ->
  extract_json_text (before +:+ fence_json +:+ body +:+ tail) = Some body.
Proof.
  intros Hbefore Hbody Htail Hsingle. unfold extract_json_text.
  rewrite contains_append.
  rewrite (split_at_first "``json" before (body +:+ tail) Hbefore
           : split fence_json (before +:+ fence_json +:+ body +:+ tail)
             = before :: split fence_json (body +:+ tail)).
  rewrite (split_no_separator _ _ Hsingle).
  cbn [item lookup list_lookup mbind option_bind].
  destruct (split_fence_body body tail Hbody Htail) as [others ->]. reflexivity.
Qed.

Lemma extract_json_fence_witness :
  extract_json_text ("Here are the boxes: " +:+ fence_json +:+ "[1, 2]" +:+ fence +:+ " Done.")
  = Some "[1, 2]".
Proof.
  apply (extract_json_fence "Here are the boxes: " "[1, 2]" (fence +:+ " Done."));
    [reflexivity | reflexivity | right; exists " Done."; reflexivity | reflexivity].
Defined.

(** X25: an answer with a plain fence and no [```json]: the text handed
    on is the text between the first fence and the next one, or the end. *)
Theorem extract_plain_fence (before body tail : string) :
  no_backquote before = true ->
  no_backquote body = true ->
  tail = "" \/ (exists after, tail = fence +:+ after) ->
  contains fence_json (before +:+ fence +:+ body +:+ tail) = false ->
  extract_json_text (before +:+ fence +:+ body +:+ tail) = Some body.
Proof.
  intros Hbefore Hbody Htail Hplain. unfold extract_json_text.
  rewrite Hplain, contains_append.
  rewrite (split_at_first "``" before (body +:+ tail) Hbefore
           : split fence (before +:+ fence +:+ body +:+ tail)
             = before :: split fence (body +:+ tail)).
  destruct (split_fence_body body tail Hbody Htail) as [others ->]. reflexivity.
Qed.

Lemma extract_plain_fence_witness :
  extract_json_text ("Boxes: " +:+ fence +:+ "[1, 2]" +:+ fence +:+ " Done.")
  = Some "[1, 2]".
Proof.
  apply (extract_plain_fence "Boxes: " "[1, 2]" (fence +:+ " Done."));
    [reflexivity | reflexivity | right; exists " Done."; reflexivity | reflexivity].
Defined.

(** X26: an answer without three backquotes in a row is handed on as it
    is. *)
Theorem extract_no_fence (ai_response : string) :
  contains fence ai_response = false ->
  extract_json_text ai_response = Some ai_response.
Proof.
  intros H. unfold extract_json_text. rewrite H.
  destruct (contains fence_json ai_response) eqn:E; [| reflexivity].
  apply (contains_shorter fence "json") in E. congruence.
Qed.

Lemma extract_no_fence_witness :
  extract_json_text "[{'tag': 'Button'}] with `code`" = Some "[{'tag': 'Button'}] with `code`".
Proof. apply extract_no_fence. reflexivity. Defined.

End AppProperties.
